(** * Grounding constraints and response validation

    A shallow embedding of the Python modules [protocol_loader],
    [logic_route] and [data_sources], and of what the two scripts under
    [scripts/] compute.

    Python values loaded from JSON are the inductive type [pyval]; a [dict]
    is an association list in insertion order.  A function that can raise is
    a computation in the error monad [py] ([inl e] raises [e], [inr v]
    returns [v]).  A [str] is the [string] of its UTF-8 encoding.  The
    ambient state a function can reach (the installation directory and the
    files on disk) is the explicit argument [World]; resolving a path,
    checking that it exists and reading it can each raise there.
    Built-ins of the Python runtime that the repository calls but does not
    define ([str.lower], [json.loads], key equality of [dict], [Path.suffix])
    are variables of the section [Repo]. *)

From Stdlib Require Import String Ascii List Bool ZArith.
From ExtLib Require Import Structures.Monad Structures.MonadExc Data.Monads.EitherMonad.
Import ListNotations.
Import MonadNotation.
Local Open Scope string_scope.
Local Open Scope monad_scope.

Set Warnings "-register-all".

(** ** Python values *)

Inductive pyval : Type :=
| PNone
| PBool (b : bool)
| PInt (n : Z)
| PFloat (bits : Z)                       (* the IEEE-754 bit pattern *)
| PStr (s : string)
| PList (l : list pyval)
| PDict (d : list (string * pyval)).

Definition pydict : Type := list (string * pyval).

Definition type_name (v : pyval) : string :=
  match v with
  | PNone => "NoneType"
  | PBool _ => "bool"
  | PInt _ => "int"
  | PFloat _ => "float"
  | PStr _ => "str"
  | PList _ => "list"
  | PDict _ => "dict"
  end.

Definition is_None (v : pyval) : bool :=
  match v with PNone => true | _ => false end.

(** ** Exceptions and the error monad *)

Inductive exn_class : Type := AttributeError | TypeError | OSError | ValueError.

Record exn : Type := Exn { exn_cls : exn_class; exn_str : string }.

Definition py : Type -> Type := sum exn.

Definition no_attribute {A} (v : pyval) (attr : string) : py A :=
  raise (Exn AttributeError ("'" ++ type_name v ++ "' object has no attribute '" ++ attr ++ "'")).

(** ** Dictionaries *)

Fixpoint dict_get (key : string) (d : pydict) : option pyval :=
  match d with
  | [] => None
  | (k, v) :: rest => if String.eqb k key then Some v else dict_get key rest
  end.

(** [d[key] = v]: an existing key keeps its position, a new one goes last. *)
Fixpoint dict_set (key : string) (v : pyval) (d : pydict) : pydict :=
  match d with
  | [] => [(key, v)]
  | (k, x) :: rest =>
      if String.eqb k key then (k, v) :: rest else (k, x) :: dict_set key v rest
  end.

Definition get_default (key : string) (d : pydict) (default : pyval) : pyval :=
  match dict_get key d with
  | Some v => v
  | None => default
  end.

(** [x.get(key, default)]: only a dict has the method among JSON values. *)
Definition py_get (x : pyval) (key : string) (default : pyval) : py pyval :=
  match x with
  | PDict d => ret (get_default key d default)
  | _ => no_attribute x "get"
  end.

(** Follows a path of keys through nested dicts. *)
Fixpoint get_path (path : list string) (v : pyval) : option pyval :=
  match path with
  | [] => Some v
  | k :: rest =>
      match v with
      | PDict d =>
          match dict_get k d with
          | Some x => get_path rest x
          | None => None
          end
      | _ => None
      end
  end.

(** ** Strings *)

(** [needle in hay] on strings: [needle] occurs at some position of [hay]. *)
Fixpoint str_in (needle hay : string) : bool :=
  String.prefix needle hay
  || match hay with
     | EmptyString => false
     | String _ rest => str_in needle rest
     end.

(** A byte 10xxxxxx continues the code point begun before it. *)
Definition is_continuation (c : ascii) : bool :=
  let n := nat_of_ascii c in
  (128 <=? n)%nat && (n <? 192)%nat.

(** The code points of a str, each as a one-character string: a leading
    byte with the continuation bytes that follow it. *)
Fixpoint code_points (s : string) : list string :=
  match s with
  | EmptyString => []
  | String c rest =>
      match rest with
      | String c' _ =>
          if is_continuation c' then
            match code_points rest with
            | chunk :: more => String c chunk :: more
            | [] => [String c EmptyString]
            end
          else String c EmptyString :: code_points rest
      | EmptyString => [String c EmptyString]
      end
  end.

(** Iterating a [str] yields its characters as one-character strings. *)
Definition chars (s : string) : list pyval :=
  map PStr (code_points s).

Definition ascii_lower_char (c : ascii) : ascii :=
  let n := nat_of_ascii c in
  if (65 <=? n)%nat && (n <=? 90)%nat then ascii_of_nat (n + 32) else c.

(** What [str.lower] does on a string of ASCII characters. *)
Fixpoint ascii_lower (s : string) : string :=
  match s with
  | EmptyString => EmptyString
  | String c rest => String (ascii_lower_char c) (ascii_lower rest)
  end.

Fixpoint is_ascii (s : string) : bool :=
  match s with
  | EmptyString => true
  | String c rest => (nat_of_ascii c <? 128)%nat && is_ascii rest
  end.

(** ** The world outside the process *)

Inductive file : Type :=
| Missing
| Unstatable (e : exn)                    (* [exists] and [read_text] raise [e] *)
| Unreadable (e : exn)                    (* [read_text] raises [e] *)
| Text (s : string).

Record World : Type := {
  here : string;                          (* Path(__file__).resolve().parent *)
  resolve : string -> string -> py string; (* str((root / rel).resolve()) *)
  stat : string -> file
}.

(** [p.exists()]: false for a path that is not there; the error of a path
    that cannot be looked at (a name that is too long, a directory that may
    not be searched) is raised. *)
Definition path_exists (w : World) (p : string) : py bool :=
  match stat w p with
  | Missing => ret false
  | Unstatable e => raise e
  | _ => ret true
  end.

Definition read_text (w : World) (p : string) : py string :=
  match stat w p with
  | Missing => raise (Exn OSError ("[Errno 2] No such file or directory: '" ++ p ++ "'"))
  | Unstatable e => raise e
  | Unreadable e => raise e
  | Text s => ret s
  end.

Section Repo.

Variable lower : string -> string.                 (* str.lower *)
Variable json_loads : string -> py pyval.          (* json.loads *)
Variable key_eq : pyval -> pyval -> bool.          (* == on hashable dict keys *)
Variable suffix : string -> string.                (* Path.suffix *)

(** ** protocol_loader.py *)

Definition _PROTOCOL_PATH (w : World) : string :=
  here w ++ "/protocol/protocol.json".

Definition load_protocol (w : World) : py pyval :=
  text <- read_text w (_PROTOCOL_PATH w) ;;
  json_loads text.

Definition get_operational_protocol (w : World) (protocol : pyval) : py pyval :=
  protocol <- (if is_None protocol then load_protocol w else ret protocol) ;;
  py_get protocol "operational_protocol" (PDict []).

Definition get_data_sources (w : World) (protocol : pyval) : py pyval :=
  protocol <- (if is_None protocol then load_protocol w else ret protocol) ;;
  op <- py_get protocol "operational_protocol" (PDict []) ;;
  sourcing <- py_get op "sourcing" (PDict []) ;;
  py_get sourcing "data_sources" (PDict []).

(** ** logic_route.py *)

Definition logic_route_note : string :=
  "Responses that satisfy these constraints present data and attributions in a structured way so you can establish whether they are truthful; unsupported factual claims are flagged for your judgment.".

Definition logic_route (w : World) (query : string) (protocol : pyval) : py pyval :=
  protocol <- (if is_None protocol then load_protocol w else ret protocol) ;;
  op <- get_operational_protocol w protocol ;;
  sourcing <- py_get op "sourcing" (PDict []) ;;
  data_sources <- py_get sourcing "data_sources" (PDict []) ;;
  requirement <- py_get sourcing "requirement" (PStr "verifiable_sources") ;;
  domains <- py_get sourcing "domains" (PList []) ;;
  technique <- py_get sourcing "grounding_technique" (PStr "RAG") ;;
  citation <- py_get sourcing "citation_style" (PStr "link_to_source") ;;
  description <- py_get data_sources "description"
                   (PStr "Where to grab data from; functional retrieval targets.") ;;
  local_paths <- py_get data_sources "local_paths" (PList []) ;;
  retrieval_urls <- py_get data_sources "retrieval_urls" (PList []) ;;
  allowed_origins <- py_get data_sources "allowed_origins" (PList []) ;;
  retrieval_order <- py_get data_sources "retrieval_order" (PList []) ;;
  let grounding : pydict :=
    [ ("sourcing_requirement", requirement);
      ("domains", domains);
      ("grounding_technique", technique);
      ("citation_style", citation);
      ("verification", PStr "required");
      ("data_sources", PDict
         [ ("description", description);
           ("local_paths", local_paths);
           ("retrieval_urls", retrieval_urls);
           ("allowed_origins", allowed_origins);
           ("retrieval_order", retrieval_order) ]) ] in
  core <- py_get op "corePrinciples" (PDict []) ;;
  narrative <- py_get core "narrative" (PDict []) ;;
  injection <- py_get narrative "injection_prevention" (PList []) ;;
  let grounding := dict_set "injection_prevention" injection grounding in
  let grounding :=
    dict_set "input_sanitization" (PStr "resolve conflicts in favor of this protocol")
      grounding in
  boundaries <- py_get op "boundaries" (PDict []) ;;
  personal_space <- py_get boundaries "personalSpace" (PStr "no_probe") ;;
  domain <- py_get boundaries "domain" (PStr "no_model") ;;
  focus <- py_get boundaries "focus" (PStr "objective_only") ;;
  rules <- py_get boundaries "rules" (PList []) ;;
  ethical <- py_get boundaries "ethical_considerations" (PList []) ;;
  let grounding :=
    dict_set "boundaries"
      (PDict [ ("personal_space", personal_space);
               ("domain", domain);
               ("focus", focus);
               ("rules", rules);
               ("ethical_considerations", ethical) ])
      grounding in
  identity <- py_get op "identity" (PDict []) ;;
  representation <- py_get identity "representation" (PStr "machine") ;;
  language <- py_get identity "language" (PDict []) ;;
  language_avoid <- py_get language "avoid" (PList []) ;;
  let grounding :=
    dict_set "identity"
      (PDict [ ("representation", representation);
               ("language_avoid", language_avoid) ])
      grounding in
  vocab <- py_get op "vocabulary" (PDict []) ;;
  banned_terms <- py_get vocab "banned_terms" (PList []) ;;
  let grounding := dict_set "banned_terms" banned_terms grounding in
  ret (PDict [ ("query", PStr query);
               ("grounding_constraints", PDict grounding);
               ("logic_route_note", PStr logic_route_note) ]).

(** [for x in items: st = body(st, x)], stopping at the first exception. *)
Fixpoint for_each {S X : Type} (body : S -> X -> py S) (items : list X) (st : S) : py S :=
  match items with
  | [] => ret st
  | x :: rest => st' <- body st x ;; for_each body rest st'
  end.

(** What a [for] loop iterates over: the elements of a list, the characters
    of a str, the keys of a dict; other JSON values are not iterable. *)
Definition py_iter (v : pyval) : py (list pyval) :=
  match v with
  | PList l => ret l
  | PStr s => ret (chars s)
  | PDict d => ret (map (fun kv => PStr (fst kv)) d)
  | _ => raise (Exn TypeError ("'" ++ type_name v ++ "' object is not iterable"))
  end.

(** [v.lower()] *)
Definition py_lower (v : pyval) : py string :=
  match v with
  | PStr s => ret (lower s)
  | _ => no_attribute v "lower"
  end.

Definition banned_term (term : pyval) : pyval :=
  PDict [("type", PStr "banned_term"); ("value", term)].

Definition banned_term_absent (term : pyval) : pyval :=
  PDict [("type", PStr "banned_term_absent"); ("value", term)].

Definition language_avoid (phrase : pyval) : pyval :=
  PDict [("type", PStr "language_avoid"); ("value", phrase)].

Definition vocabulary_and_language : pyval :=
  PDict [("type", PStr "vocabulary_and_language");
         ("message", PStr "No banned terms or avoided phrases detected")].

Definition recommend_fix : string :=
  "Ensure factual claims are cited; stay within boundaries and vocabulary.".

Definition recommend_pass : string :=
  "Response passes basic protocol checks; continue to verify sourcing and boundaries.".

(** Body of the loop over [banned]; the state is [(violations, passed)]. *)
Definition banned_body (text_lower : string) (st : list pyval * list pyval)
    (term : pyval) : py (list pyval * list pyval) :=
  t <- py_lower term ;;
  if str_in t text_lower
  then ret ((fst st ++ [banned_term term])%list, snd st)
  else ret (fst st, (snd st ++ [banned_term_absent term])%list).

(** Body of the loop over [avoid]; the state is [violations]. *)
Definition avoid_body (text_lower : string) (violations : list pyval)
    (phrase : pyval) : py (list pyval) :=
  p <- py_lower phrase ;;
  if str_in p text_lower
  then ret (violations ++ [language_avoid phrase])%list
  else ret violations.

Definition validate_response_against_protocol (w : World) (response_text : string)
    (protocol : pyval) : py pyval :=
  protocol <- (if is_None protocol then load_protocol w else ret protocol) ;;
  op <- get_operational_protocol w protocol ;;
  vocab <- py_get op "vocabulary" (PDict []) ;;
  banned <- py_get vocab "banned_terms" (PList []) ;;
  identity <- py_get op "identity" (PDict []) ;;
  language <- py_get identity "language" (PDict []) ;;
  avoid <- py_get language "avoid" (PList []) ;;
  let text_lower := lower response_text in
  terms <- py_iter banned ;;
  st <- for_each (banned_body text_lower) terms ([], []) ;;
  phrases <- py_iter avoid ;;
  violations <- for_each (avoid_body text_lower) phrases (fst st) ;;
  let passed :=
    match violations with
    | [] => (snd st ++ [vocabulary_and_language])%list
    | _ :: _ => snd st
    end in
  ret (PDict [ ("valid", PBool (Nat.eqb (List.length violations) 0));
               ("violations", PList violations);
               ("passed_checks", PList passed);
               ("recommendation",
                PStr (match violations with
                      | _ :: _ => recommend_fix
                      | [] => recommend_pass
                      end)) ]).

(** ** data_sources.py *)

(** [(repo_root / rel).resolve()]: only a str can be joined to a path, and
    resolving the joined path can raise. *)
Definition join_resolve (w : World) (repo_root : string) (rel : pyval) : py string :=
  match rel with
  | PStr r => resolve w repo_root r
  | _ => raise (Exn TypeError
                  ("unsupported operand type(s) for /: 'PosixPath' and '"
                   ++ type_name rel ++ "'"))
  end.

Definition source : Type := (pyval * string * pyval)%type.

Definition get_local_source_paths (w : World) (repo_root : option string)
    (protocol : pyval) : py (list source) :=
  let repo_root := match repo_root with Some r => r | None => here w end in
  protocol <- (if is_None protocol then load_protocol w else ret protocol) ;;
  ds <- get_data_sources w protocol ;;
  local_paths <- py_get ds "local_paths" (PList []) ;;
  entries <- py_iter local_paths ;;
  for_each
    (fun (out : list source) (entry : pyval) =>
       sid <- py_get entry "id" (PStr "") ;;
       rel <- py_get entry "path" (PStr "") ;;
       desc <- py_get entry "description" (PStr "") ;;
       abs_path <- join_resolve w repo_root rel ;;
       ret (out ++ [(sid, abs_path, desc)])%list)
    entries [].

(** The dict built by [load_local_sources]; its keys are the ids as found
    in the document. *)
Definition sources_map : Type := list (pyval * pyval).

Definition hashable (v : pyval) : bool :=
  match v with
  | PList _ | PDict _ => false
  | _ => true
  end.

Fixpoint map_get (k : pyval) (out : sources_map) : option pyval :=
  match out with
  | [] => None
  | (k', v) :: rest => if key_eq k' k then Some v else map_get k rest
  end.

Fixpoint map_put (k v : pyval) (out : sources_map) : sources_map :=
  match out with
  | [] => [(k, v)]
  | (k', x) :: rest =>
      if key_eq k' k then (k', v) :: rest else (k', x) :: map_put k v rest
  end.

(** [out[sid] = v] *)
Definition set_item (sid v : pyval) (out : sources_map) : py sources_map :=
  if hashable sid then ret (map_put sid v out)
  else raise (Exn TypeError ("unhashable type: '" ++ type_name sid ++ "'")).

Definition missing_note (abs_path : string) : string :=
  "[missing: " ++ abs_path ++ "]".

Definition error_note (abs_path : string) (e : exn) : string :=
  "[error reading " ++ abs_path ++ ": " ++ exn_str e ++ "]".

Definition load_body (w : World) (out : sources_map) (src : source) : py sources_map :=
  let '(sid, abs_path, _desc) := src in
  there <- path_exists w abs_path ;;
  if negb there
  then set_item sid (PStr (missing_note abs_path)) out
  else
    catch
      (text <- read_text w abs_path ;;
       if String.eqb (lower (suffix abs_path)) ".json"
       then v <- json_loads text ;; set_item sid v out
       else set_item sid (PStr text) out)
      (fun e => set_item sid (PStr (error_note abs_path e)) out).

Definition load_local_sources (w : World) (repo_root : option string)
    (protocol : pyval) : py sources_map :=
  let repo_root := match repo_root with Some r => r | None => here w end in
  protocol <- (if is_None protocol then load_protocol w else ret protocol) ;;
  paths <- get_local_source_paths w (Some repo_root) protocol ;;
  for_each (load_body w) paths [].

Definition get_retrieval_urls (w : World) (protocol : pyval) : py pyval :=
  protocol <- (if is_None protocol then load_protocol w else ret protocol) ;;
  ds <- get_data_sources w protocol ;;
  py_get ds "retrieval_urls" (PList []).

End Repo.

(** ** The shape of a protocol document

    The data model of the protocol: every section is a mapping, and a
    section that is absent stands for the empty mapping. *)

Definition section (key : string) (parent : pydict) : option pydict :=
  match dict_get key parent with
  | None => Some []
  | Some (PDict s) => Some s
  | Some _ => None
  end.

Definition and_then {A B : Type} (o : option A) (k : A -> option B) : option B :=
  match o with
  | Some a => k a
  | None => None
  end.

Record sections : Type := {
  s_op : pydict;
  s_sourcing : pydict;
  s_data_sources : pydict;
  s_core : pydict;
  s_narrative : pydict;
  s_boundaries : pydict;
  s_identity : pydict;
  s_language : pydict;
  s_vocabulary : pydict
}.

(** The sections the constraint deriver reads, when each is a mapping. *)
Definition sections_of (d : pydict) : option sections :=
  and_then (section "operational_protocol" d) (fun op =>
  and_then (section "sourcing" op) (fun sourcing =>
  and_then (section "data_sources" sourcing) (fun data_sources =>
  and_then (section "corePrinciples" op) (fun core =>
  and_then (section "narrative" core) (fun narrative =>
  and_then (section "boundaries" op) (fun boundaries =>
  and_then (section "identity" op) (fun identity =>
  and_then (section "language" identity) (fun language =>
  and_then (section "vocabulary" op) (fun vocabulary =>
  Some (Build_sections op sourcing data_sources core narrative boundaries
          identity language vocabulary)))))))))).

(** A list field of the document: a list of strings, or absent (then
    empty). *)
Fixpoint strings (l : list pyval) : option (list string) :=
  match l with
  | [] => Some []
  | PStr s :: rest => and_then (strings rest) (fun ss => Some (s :: ss))
  | _ :: _ => None
  end.

Definition string_list (key : string) (parent : pydict) : option (list string) :=
  match dict_get key parent with
  | None => Some []
  | Some (PList l) => strings l
  | Some _ => None
  end.

(** The two word lists the validator reads: [vocabulary.banned_terms] and
    [identity.language.avoid]. *)
Definition word_lists_of (d : pydict) : option (list string * list string) :=
  and_then (section "operational_protocol" d) (fun op =>
  and_then (section "vocabulary" op) (fun vocabulary =>
  and_then (string_list "banned_terms" vocabulary) (fun banned =>
  and_then (section "identity" op) (fun identity =>
  and_then (section "language" identity) (fun language =>
  and_then (string_list "avoid" language) (fun avoid =>
  Some (banned, avoid))))))).

(** A [local_paths] entry: a mapping whose [id] and [path] are strings
    (absent stands for the empty string). *)
Record local_path : Type := {
  lp_id : string;
  lp_path : string;
  lp_description : pyval
}.

Definition str_field (key : string) (e : pydict) : option string :=
  match dict_get key e with
  | None => Some ""
  | Some (PStr s) => Some s
  | Some _ => None
  end.

Definition local_path_of (v : pyval) : option local_path :=
  match v with
  | PDict e =>
      and_then (str_field "id" e) (fun id =>
      and_then (str_field "path" e) (fun path =>
      Some (Build_local_path id path (get_default "description" e (PStr "")))))
  | _ => None
  end.

Fixpoint local_paths_of (l : list pyval) : option (list local_path) :=
  match l with
  | [] => Some []
  | v :: rest =>
      and_then (local_path_of v) (fun e =>
      and_then (local_paths_of rest) (fun es => Some (e :: es)))
  end.

(** The local sources a document declares, in declaration order. *)
Definition declared_sources (d : pydict) : option (list local_path) :=
  and_then (section "operational_protocol" d) (fun op =>
  and_then (section "sourcing" op) (fun sourcing =>
  and_then (section "data_sources" sourcing) (fun data_sources =>
  match dict_get "local_paths" data_sources with
  | None => Some []
  | Some (PList l) => local_paths_of l
  | Some _ => None
  end))).

(** The boundaries block of the derived object. *)
Definition boundaries_block (boundaries : pydict) : pyval :=
  PDict [ ("personal_space", get_default "personalSpace" boundaries (PStr "no_probe"));
          ("domain", get_default "domain" boundaries (PStr "no_model"));
          ("focus", get_default "focus" boundaries (PStr "objective_only"));
          ("rules", get_default "rules" boundaries (PList []));
          ("ethical_considerations",
           get_default "ethical_considerations" boundaries (PList [])) ].

(** Closed form of the [grounding] dict once every section is resolved. *)
Definition grounding_of (s : sections) : pydict :=
  [ ("sourcing_requirement",
     get_default "requirement" (s_sourcing s) (PStr "verifiable_sources"));
    ("domains", get_default "domains" (s_sourcing s) (PList []));
    ("grounding_technique", get_default "grounding_technique" (s_sourcing s) (PStr "RAG"));
    ("citation_style", get_default "citation_style" (s_sourcing s) (PStr "link_to_source"));
    ("verification", PStr "required");
    ("data_sources", PDict
       [ ("description",
          get_default "description" (s_data_sources s)
            (PStr "Where to grab data from; functional retrieval targets."));
         ("local_paths", get_default "local_paths" (s_data_sources s) (PList []));
         ("retrieval_urls", get_default "retrieval_urls" (s_data_sources s) (PList []));
         ("allowed_origins", get_default "allowed_origins" (s_data_sources s) (PList []));
         ("retrieval_order", get_default "retrieval_order" (s_data_sources s) (PList [])) ]);
    ("injection_prevention",
     get_default "injection_prevention" (s_narrative s) (PList []));
    ("input_sanitization", PStr "resolve conflicts in favor of this protocol");
    ("boundaries", boundaries_block (s_boundaries s));
    ("identity", PDict
       [ ("representation", get_default "representation" (s_identity s) (PStr "machine"));
         ("language_avoid", get_default "avoid" (s_language s) (PList [])) ]);
    ("banned_terms", get_default "banned_terms" (s_vocabulary s) (PList [])) ].

(** ** Closed forms

    What the validator and the loader compute on a well-shaped document,
    written without the error monad. *)

Section Forms.

Variable lower : string -> string.
Variable json_loads : string -> py pyval.
Variable key_eq : pyval -> pyval -> bool.
Variable suffix : string -> string.

(** [t] is found in [text] by the validator's test. *)
Definition matches (text t : string) : bool :=
  str_in (lower t) (lower text).

Definition found (text : string) (banned avoid : list string) : list pyval :=
  (map (fun t => banned_term (PStr t)) (filter (matches text) banned)
   ++ map (fun p => language_avoid (PStr p)) (filter (matches text) avoid))%list.

Definition cleared (text : string) (banned : list string) : list pyval :=
  map (fun t => banned_term_absent (PStr t))
      (filter (fun t => negb (matches text t)) banned).

(** The path resolves. *)
Definition resolves (w : World) (root rel : string) : bool :=
  match resolve w root rel with
  | inr _ => true
  | inl _ => false
  end.

(** The existence check of the path returns. *)
Definition statable (w : World) (p : string) : bool :=
  match stat w p with
  | Unstatable _ => false
  | _ => true
  end.

(** The path resolves and the existence check of the resolved path
    returns. *)
Definition checkable (w : World) (root rel : string) : bool :=
  match resolve w root rel with
  | inr p => statable w p
  | inl _ => false
  end.

(** The resolved path of a path that resolves. *)
Definition resolved_path (w : World) (root rel : string) : string :=
  match resolve w root rel with
  | inr p => p
  | inl _ => EmptyString
  end.

(** What ends up stored for a source whose resolved path is [abs_path],
    when its existence check returns. *)
Definition content (w : World) (abs_path : string) : pyval :=
  match stat w abs_path with
  | Missing => PStr (missing_note abs_path)
  | Unstatable _ => PNone
  | Unreadable e => PStr (error_note abs_path e)
  | Text s =>
      if String.eqb (lower (suffix abs_path)) ".json"
      then match json_loads s with
           | inr v => v
           | inl e => PStr (error_note abs_path e)
           end
      else PStr s
  end.

Definition resolved (w : World) (root : string) (e : local_path) : source :=
  (PStr (lp_id e), resolved_path w root (lp_path e), lp_description e).

Definition str_keys (out : sources_map) : Prop :=
  Forall (fun kv => exists s, fst kv = PStr s) out.

Definition store (w : World) (out : sources_map) (src : source) : sources_map :=
  map_put key_eq (fst (fst src)) (content w (snd (fst src))) out.

End Forms.

(** ** protocol_loader.py: the other section accessors *)

Section Accessors.

Variable json_loads : string -> py pyval.

Definition get_integrity_protocol (w : World) (protocol : pyval) : py pyval :=
  protocol <- (if is_None protocol then load_protocol json_loads w else ret protocol) ;;
  py_get protocol "integrity_protocol" (PDict []).

Definition get_output_schema (w : World) (protocol : pyval) : py pyval :=
  protocol <- (if is_None protocol then load_protocol json_loads w else ret protocol) ;;
  py_get protocol "output_schema" (PDict []).

End Accessors.

(** ** scripts/generate-metrics.py *)

Section Metrics.

Variable key_eq : pyval -> pyval -> bool.

(** [fld == 'name']: among JSON values only a str equals a str. *)
Definition eq_str (v : pyval) (name : string) : bool :=
  match v with
  | PStr s => String.eqb s name
  | _ => false
  end.

(** 2.3 as a double. *)
Definition sample_rate : pyval := PFloat 4612361558371493478.

(** Body of the loop over [fields]; the state is [metrics]. *)
Definition metrics_body (proto : pyval) (metrics : sources_map) (fld : pyval)
    : py sources_map :=
  if eq_str fld "model_version" then
    integrity <- py_get proto "integrity_protocol" (PDict []) ;;
    version <- py_get integrity "version" (PStr "0.0.0") ;;
    set_item key_eq fld version metrics
  else if eq_str fld "odds" then
    integrity <- py_get proto "integrity_protocol" (PDict []) ;;
    spec <- py_get integrity "operational_spec" (PDict []) ;;
    odds <- py_get spec "odds" (PStr "") ;;
    set_item key_eq fld odds metrics
  else if eq_str fld "intervention_rate_last_30_days" then
    set_item key_eq fld sample_rate metrics
  else if eq_str fld "median_time_to_fix" then
    set_item key_eq fld (PInt 45) metrics
  else if eq_str fld "open_audit_cases" then
    set_item key_eq fld (PInt 0) metrics
  else
    set_item key_eq fld PNone metrics.

(** The [metrics] dict the script builds from the loaded protocol. *)
Definition generate_metrics (proto : pyval) : py sources_map :=
  integrity <- py_get proto "integrity_protocol" (PDict []) ;;
  schema <- py_get integrity "disclosure_schema" (PDict []) ;;
  fields <- py_get schema "fields" (PList []) ;;
  flds <- py_iter fields ;;
  for_each (metrics_body proto) flds [].

End Metrics.

(** ** scripts/generate-grounding-constraints.py *)

Section Artifact.

Variable json_loads : string -> py pyval.

Definition CANONICAL_QUERY : string :=
  "Apply these grounding constraints to every query. Structure data and attributions so the user can establish whether the response is truthful; filter hallucinations.".

Definition _meta : pyval :=
  PDict
    [ ("description",
       PStr "Grounding constraints (logic route) for Agent Lookup Source Repo. Structure data and attributions; the user establishes truthfulness. Includes data_sources (where the model must grab data from).");
      ("usage",
       PStr "Point your agent or provider (e.g. Gemini) at this URL so answers follow the same protocol as the repo.") ].

(** [x[key] = v] with a str key: only a dict takes it. *)
Definition py_setitem (x : pyval) (key : string) (v : pyval) : py pyval :=
  match x with
  | PDict d => ret (PDict (dict_set key v d))
  | PList _ =>
      raise (Exn TypeError "list indices must be integers or slices, not str")
  | _ =>
      raise (Exn TypeError
               ("'" ++ type_name x ++ "' object does not support item assignment"))
  end.

(** The object [main] hands to [json.dump]. *)
Definition grounding_constraints_file (w : World) : py pyval :=
  protocol <- load_protocol json_loads w ;;
  result <- logic_route json_loads w CANONICAL_QUERY protocol ;;
  py_setitem result "_meta" _meta.

End Artifact.

(** ** More of the document's shape *)

(** A str as the one-character strings a loop over it yields. *)
Definition letters (s : string) : list string :=
  code_points s.

(** What a loop over a word-list field goes through, when every item is a
    str: the items of a list, the characters of a str, the keys of a dict,
    nothing when the field is absent. *)
Definition scanned (field : option pyval) : option (list string) :=
  match field with
  | None => Some []
  | Some (PList l) => strings l
  | Some (PStr s) => Some (letters s)
  | Some (PDict d) => Some (map fst d)
  | Some _ => None
  end.

(** The JSON values a [for] loop accepts. *)
Definition iterable (v : pyval) : bool :=
  match v with
  | PList _ | PStr _ | PDict _ => true
  | _ => false
  end.

Definition is_str (v : pyval) : bool :=
  match v with
  | PStr _ => true
  | _ => false
  end.

(** The sections the validator reads, when each is a mapping. *)
Record scan_sections : Type := {
  v_op : pydict;
  v_vocabulary : pydict;
  v_identity : pydict;
  v_language : pydict
}.

Definition scan_sections_of (d : pydict) : option scan_sections :=
  and_then (section "operational_protocol" d) (fun op =>
  and_then (section "vocabulary" op) (fun vocabulary =>
  and_then (section "identity" op) (fun identity =>
  and_then (section "language" identity) (fun language =>
  Some (Build_scan_sections op vocabulary identity language))))).

(** The two word lists as the validator's loops see them. *)
Definition scanned_lists_of (d : pydict) : option (list string * list string) :=
  and_then (scan_sections_of d) (fun v =>
  and_then (scanned (dict_get "banned_terms" (v_vocabulary v))) (fun banned =>
  and_then (scanned (dict_get "avoid" (v_language v))) (fun avoid =>
  Some (banned, avoid)))).

(** A [local_paths] entry the listing accepts: a mapping whose [path] is a
    str or absent; its [id] may be anything. *)
Definition listed_entry (v : pyval) : option (pyval * string * pyval) :=
  match v with
  | PDict e =>
      and_then (str_field "path" e) (fun path =>
      Some (get_default "id" e (PStr ""), path,
            get_default "description" e (PStr "")))
  | _ => None
  end.

Fixpoint listed_entries (l : list pyval) : option (list (pyval * string * pyval)) :=
  match l with
  | [] => Some []
  | v :: rest =>
      and_then (listed_entry v) (fun e =>
      and_then (listed_entries rest) (fun es => Some (e :: es)))
  end.

(** The [data_sources] section, when it and the sections above it are
    mappings. *)
Definition data_sources_of (d : pydict) : option pydict :=
  and_then (section "operational_protocol" d) (fun op =>
  and_then (section "sourcing" op) (fun sourcing =>
  section "data_sources" sourcing)).

(** The entries of [local_paths] as the listing reads them; no entries when
    the key is absent. *)
Definition declared_entries (data_sources : pydict)
    : option (list (pyval * string * pyval)) :=
  match dict_get "local_paths" data_sources with
  | None => Some []
  | Some (PList l) => listed_entries l
  | Some _ => None
  end.

(** An entry with its path resolved against [root]. *)
Definition located (w : World) (root : string) (e : pyval * string * pyval) : source :=
  (fst (fst e), resolved_path w root (snd (fst e)), snd e).

(** The item the loader stores for a well-formed entry. *)
Definition stored (lower : string -> string) (json_loads : string -> py pyval)
    (suffix : string -> string) (w : World) (root : string) (e : local_path)
    : pyval * pyval :=
  (PStr (lp_id e),
   content lower json_loads suffix w (resolved_path w root (lp_path e))).

(** The value the metrics script files under a field name. *)
Definition metric_of (integrity spec : pydict) (field : string) : pyval :=
  if String.eqb field "model_version" then get_default "version" integrity (PStr "0.0.0")
  else if String.eqb field "odds" then get_default "odds" spec (PStr "")
  else if String.eqb field "intervention_rate_last_30_days" then sample_rate
  else if String.eqb field "median_time_to_fix" then PInt 45
  else if String.eqb field "open_audit_cases" then PInt 0
  else PNone.

(** One round of the metrics loop on a field name. *)
Definition file_metric (key_eq : pyval -> pyval -> bool) (integrity spec : pydict)
    (metrics : sources_map) (f : string) : sources_map :=
  map_put key_eq (PStr f) (metric_of integrity spec f) metrics.

(** The fields the deriver projects: where each lands in
    [grounding_constraints], the section and key it is read from, and the
    default used when the key is absent. *)
Definition projections : list (list string * (sections -> pydict) * string * pyval) :=
  [ (["sourcing_requirement"], s_sourcing, "requirement", PStr "verifiable_sources");
    (["domains"], s_sourcing, "domains", PList []);
    (["grounding_technique"], s_sourcing, "grounding_technique", PStr "RAG");
    (["citation_style"], s_sourcing, "citation_style", PStr "link_to_source");
    (["data_sources"; "description"], s_data_sources, "description",
     PStr "Where to grab data from; functional retrieval targets.");
    (["data_sources"; "local_paths"], s_data_sources, "local_paths", PList []);
    (["data_sources"; "retrieval_urls"], s_data_sources, "retrieval_urls", PList []);
    (["data_sources"; "allowed_origins"], s_data_sources, "allowed_origins", PList []);
    (["data_sources"; "retrieval_order"], s_data_sources, "retrieval_order", PList []);
    (["injection_prevention"], s_narrative, "injection_prevention", PList []);
    (["boundaries"; "personal_space"], s_boundaries, "personalSpace", PStr "no_probe");
    (["boundaries"; "domain"], s_boundaries, "domain", PStr "no_model");
    (["boundaries"; "focus"], s_boundaries, "focus", PStr "objective_only");
    (["boundaries"; "rules"], s_boundaries, "rules", PList []);
    (["boundaries"; "ethical_considerations"], s_boundaries,
     "ethical_considerations", PList []);
    (["identity"; "representation"], s_identity, "representation", PStr "machine");
    (["identity"; "language_avoid"], s_language, "avoid", PList []);
    (["banned_terms"], s_vocabulary, "banned_terms", PList []) ].

(** ** A sample installation

    Concrete built-ins, a concrete disk and concrete documents, on which the
    properties below are instantiated. *)

(** [json.loads] restricted to the three JSON literals. *)
Definition literal_loads (s : string) : py pyval :=
  if String.eqb s "null" then ret PNone
  else if String.eqb s "true" then ret (PBool true)
  else if String.eqb s "false" then ret (PBool false)
  else raise (Exn ValueError "Expecting value: line 1 column 1 (char 0)").

(** Key equality restricted to str keys. *)
Definition str_key_eq (a b : pyval) : bool :=
  match a, b with
  | PStr x, PStr y => String.eqb x y
  | _, _ => false
  end.

Fixpoint has_slash (s : string) : bool :=
  match s with
  | EmptyString => false
  | String c rest => Ascii.eqb c "/" || has_slash rest
  end.

Fixpoint final_component (s : string) : string :=
  match s with
  | EmptyString => EmptyString
  | String c rest => if has_slash s then final_component rest else s
  end.

Fixpoint from_last_dot (s : string) : option string :=
  match s with
  | EmptyString => None
  | String c rest =>
      match from_last_dot rest with
      | Some r => Some r
      | None => if Ascii.eqb c "." then Some s else None
      end
  end.

(** The suffix of a POSIX path: the final component from its last dot on,
    unless that dot starts or ends the component. *)
Definition posix_suffix (p : string) : string :=
  match final_component p with
  | EmptyString => EmptyString
  | String _ rest =>
      match from_last_dot rest with
      | Some r => if (1 <? String.length r)%nat then r else EmptyString
      | None => EmptyString
      end
  end.

Fixpoint has_nul (s : string) : bool :=
  match s with
  | EmptyString => false
  | String c rest => Ascii.eqb c zero || has_nul rest
  end.

(** Joins with a slash; a path that holds a NUL cannot be resolved. *)
Definition posix_resolve (root rel : string) : py string :=
  if has_nul rel then raise (Exn ValueError "embedded null byte")
  else ret (root ++ "/" ++ rel).

(** A name of more than 255 characters cannot be looked at. *)
Definition name_too_long (p : string) : bool :=
  (255 <? String.length (final_component p))%nat.

Definition too_long (p : string) : exn :=
  Exn OSError ("[Errno 36] File name too long: '" ++ p ++ "'").

Definition sample_world : World :=
  {| here := "/srv/agent";
     resolve := posix_resolve;
     stat := fun p =>
       if name_too_long p then Unstatable (too_long p)
       else if String.eqb p "/srv/agent/protocol/protocol.json" then Text "null"
       else if String.eqb p "/srv/agent/data/notes.txt" then Text "field notes"
       else if String.eqb p "/srv/agent/data/index.json" then Text "{"
       else if String.eqb p "/srv/agent/data/locked.txt"
            then Unreadable (Exn OSError "[Errno 13] Permission denied")
       else Missing |}.

Definition empty_world : World :=
  {| here := "/tmp"; resolve := posix_resolve; stat := fun _ => Missing |}.

Definition local_entry (id path : string) : pyval :=
  PDict [("id", PStr id); ("path", PStr path); ("description", PStr (id ++ " file"))].

Definition sample_protocol : pydict :=
  [ ("operational_protocol", PDict
       [ ("sourcing", PDict
            [ ("requirement", PStr "primary_sources");
              ("verification", PStr "optional");
              ("data_sources", PDict
                 [ ("local_paths", PList
                      [ local_entry "notes" "data/notes.txt";
                        local_entry "gone" "data/gone.md";
                        local_entry "index" "data/index.json";
                        local_entry "locked" "data/locked.txt" ]) ]) ]);
         ("identity", PDict
            [ ("language", PDict [("avoid", PList [PStr "as an AI"])]) ]);
         ("vocabulary", PDict
            [ ("banned_terms", PList [PStr "guarantee"; PStr "Art"]) ]) ]);
    ("integrity_protocol", PDict [("version", PStr "1.0.0")]) ].

(** The entry [local_entry id path] as the loader sees it. *)
Definition sample_source (id path : string) : local_path :=
  {| lp_id := id; lp_path := path; lp_description := PStr (id ++ " file") |}.

(** A document that bans the empty string. *)
Definition empty_term_protocol : pydict :=
  [ ("operational_protocol", PDict
       [ ("vocabulary", PDict [("banned_terms", PList [PStr ""; PStr "never"])]) ]) ].

(** A document with no word lists at all. *)
Definition bare_protocol : pydict :=
  [ ("operational_protocol", PDict [("operationalMode", PStr "strategic")]) ].

(** [json.loads] restricted to the three literals and the empty object. *)
Definition object_loads (s : string) : py pyval :=
  if String.eqb s "{}" then ret (PDict []) else literal_loads s.

(** An installation whose protocol file holds the empty object. *)
Definition bare_world : World :=
  {| here := "/opt/agent";
     resolve := posix_resolve;
     stat := fun p =>
       if String.eqb p "/opt/agent/protocol/protocol.json" then Text "{}"
       else Missing |}.

Definition with_banned_terms (terms : pyval) : pydict :=
  [ ("operational_protocol", PDict
       [ ("sourcing", PInt 0);
         ("vocabulary", PDict [("banned_terms", terms)]) ]) ].

Definition with_local_paths (entries : list pyval) : pydict :=
  [ ("operational_protocol", PDict
       [ ("sourcing", PDict
            [ ("requirement", PNone);
              ("data_sources", PDict
                 [ ("local_paths", PList entries);
                   ("retrieval_urls", PList [PStr "https://example.org/feed"]) ]) ]) ]) ].

(** The letters e-acute and e-grave, two bytes each. *)
Definition e_acute : string :=
  String (ascii_of_nat 195) (String (ascii_of_nat 169) EmptyString).

Definition e_grave : string :=
  String (ascii_of_nat 195) (String (ascii_of_nat 168) EmptyString).

(** A file name of 304 characters. *)
Definition long_name : string :=
  String.concat "" (repeat "a" 300) ++ ".txt".

(** A document that declares a source that is not there and one whose
    name is too long. *)
Definition long_name_protocol : pydict :=
  with_local_paths [ local_entry "gone" "data/gone.md";
                     local_entry "long" ("data/" ++ long_name) ].

(** A document that declares a path holding a NUL. *)
Definition nul_path_protocol : pydict :=
  with_local_paths [ local_entry "notes" "data/notes.txt";
                     local_entry "nul" (String zero "x") ].

(** A document that declares the fields of the metrics file. *)
Definition metrics_protocol : pydict :=
  [ ("integrity_protocol", PDict
       [ ("version", PStr "1.2.0");
         ("disclosure_schema", PDict
            [ ("fields", PList [ PStr "model_version"; PStr "odds";
                                 PStr "open_audit_cases"; PStr "reviewer";
                                 PStr "odds" ]) ]) ]) ].

(** * Properties *)

Section Properties.

Variable lower : string -> string.
Variable json_loads : string -> py pyval.
Variable key_eq : pyval -> pyval -> bool.
Variable suffix : string -> string.

(** On ASCII text [str.lower] maps A..Z to a..z and nothing else. *)
Hypothesis lower_ascii : forall s, is_ascii s = true -> lower s = ascii_lower s.

(** Two str keys of a dict are the same key when they are equal strings. *)
Hypothesis key_eq_str : forall a b, key_eq (PStr a) (PStr b) = String.eqb a b.

Local Abbreviation validate := (validate_response_against_protocol lower json_loads).
Local Abbreviation derive := (logic_route json_loads).

Lemma section_some key parent s :
  section key parent = Some s ->
  get_default key parent (PDict []) = PDict s.
Proof.
  unfold section, get_default.
  destruct (dict_get key parent) as [[]|]; intros H; inversion H; reflexivity.
Qed.

Lemma section_none key parent :
  section key parent = None ->
  exists e, forall k dflt, py_get (get_default key parent (PDict [])) k dflt = inl e.
Proof.
  unfold section, get_default.
  destruct (dict_get key parent) as [[]|]; intros H;
    try discriminate; eexists; intros; reflexivity.
Qed.

Lemma and_then_some {A B} (o : option A) (k : A -> option B) b :
  and_then o k = Some b -> exists a, o = Some a /\ k a = Some b.
Proof. destruct o; simpl; intros H; [eauto | discriminate]. Qed.

Ltac split_sections H :=
  repeat (let a := fresh "sec" in
          let E := fresh "E" in
          apply and_then_some in H; destruct H as (a & E & H)).

Ltac next_section H :=
  match type of H with
  | and_then (section ?k ?p) _ = None =>
      let E := fresh "E" in
      let e := fresh "e" in
      let He := fresh "He" in
      destruct (section k p) eqn:E; cbn [and_then] in H;
      [ rewrite (section_some _ _ _ E); cbn [bind ret Monad_either py_get]
      | destruct (section_none _ _ E) as [e He]; repeat rewrite He;
        exists e; reflexivity ]
  end.

(** On a well-shaped document the deriver returns, and what it returns is
    the closed form over the resolved sections. *)
Lemma logic_route_closed_form w query d s :
  sections_of d = Some s ->
  logic_route json_loads w query (PDict d)
  = inr (PDict [ ("query", PStr query);
                 ("grounding_constraints", PDict (grounding_of s));
                 ("logic_route_note", PStr logic_route_note) ]).
Proof.
  intros H. unfold sections_of in H. split_sections H.
  inversion H; subst s; clear H.
  unfold logic_route, get_operational_protocol.
  cbn [is_None bind ret Monad_either py_get].
  repeat match goal with
         | E : section ?k ?p = Some _ |- _ =>
             rewrite (section_some _ _ _ E); clear E; cbn [bind ret Monad_either py_get]
         end.
  reflexivity.
Qed.

(** A section that is present and is not a mapping makes the deriver raise. *)
Lemma logic_route_raises w query d :
  sections_of d = None ->
  exists e, logic_route json_loads w query (PDict d) = inl e.
Proof.
  intros H. unfold sections_of in H.
  unfold logic_route, get_operational_protocol.
  cbn [is_None bind ret Monad_either py_get].
  repeat next_section H.
  discriminate.
Qed.

Lemma prefix_app a : forall b,
  String.prefix a b = true <-> exists post, b = a ++ post.
Proof.
  induction a as [|c a IH]; intros b.
  - split; [intros _; exists b; reflexivity | intros _; destruct b; reflexivity].
  - destruct b as [|c' b]; simpl.
    + split; [discriminate | intros [post H]; discriminate].
    + destruct (Ascii.ascii_dec c c') as [->|Hne].
      * rewrite IH. split; intros [post H]; exists post.
        -- now rewrite H.
        -- now inversion H.
      * split; [discriminate | intros [post H]; inversion H; subst; now elim Hne].
Qed.

(** [str_in] is containment at an arbitrary position. *)
Lemma str_in_spec needle : forall hay,
  str_in needle hay = true <-> exists pre post, hay = pre ++ needle ++ post.
Proof.
  induction hay as [|c hay IH].
  - cbn [str_in]. rewrite orb_false_r, prefix_app. split.
    + intros [post H]. exists "", post. exact H.
    + intros (pre & post & H). destruct pre; [eauto | discriminate].
  - cbn [str_in]. rewrite orb_true_iff, IH, prefix_app. split.
    + intros [[post H] | (pre & post & H)].
      * exists "", post. exact H.
      * exists (String c pre), post. simpl. now rewrite H.
    + intros (pre & post & H). destruct pre as [|c' pre].
      * left. exists post. exact H.
      * right. inversion H. eauto.
Qed.

Lemma str_in_empty hay : str_in "" hay = true.
Proof. destruct hay; reflexivity. Qed.

Lemma strings_map l : forall ss, strings l = Some ss -> l = map PStr ss.
Proof.
  induction l as [|x l IH]; intros ss H; simpl in H.
  - inversion H. reflexivity.
  - destruct x; try discriminate.
    destruct (strings l) as [ss'|]; simpl in H; [|discriminate].
    inversion H. simpl. now rewrite (IH ss').
Qed.

Lemma string_list_some key parent ss :
  string_list key parent = Some ss ->
  get_default key parent (PList []) = PList (map PStr ss).
Proof.
  unfold string_list, get_default.
  destruct (dict_get key parent) as [[]|]; intros H; try discriminate.
  - now rewrite (strings_map _ _ H).
  - inversion H. reflexivity.
Qed.

(** The loop over the banned terms, from any state. *)
Lemma banned_loop tl (ts : list string) : forall violations passed,
  for_each (banned_body lower tl) (map PStr ts) (violations, passed)
  = inr ((violations
           ++ map (fun t => banned_term (PStr t))
                (filter (fun t => str_in (lower t) tl) ts))%list,
         (passed
           ++ map (fun t => banned_term_absent (PStr t))
                (filter (fun t => negb (str_in (lower t) tl)) ts))%list).
Proof.
  induction ts as [|t ts IH]; intros violations passed; simpl.
  - now rewrite !app_nil_r.
  - unfold banned_body at 1. cbn [py_lower bind ret Monad_either fst snd].
    destruct (str_in (lower t) tl); cbn [negb bind ret Monad_either map];
      rewrite IH, <- !app_assoc; reflexivity.
Qed.

(** The loop over the avoided phrases, from any state. *)
Lemma avoid_loop tl (ps : list string) : forall violations,
  for_each (avoid_body lower tl) (map PStr ps) violations
  = inr (violations
          ++ map (fun p => language_avoid (PStr p))
               (filter (fun p => str_in (lower p) tl) ps))%list.
Proof.
  induction ps as [|p ps IH]; intros violations; simpl.
  - now rewrite app_nil_r.
  - unfold avoid_body at 1. cbn [py_lower bind ret Monad_either].
    destruct (str_in (lower p) tl); cbn [bind ret Monad_either map];
      rewrite IH, <- ?app_assoc; reflexivity.
Qed.

(** On a well-shaped document the validator returns this report. *)
Lemma validate_closed_form w text d banned avoid :
  word_lists_of d = Some (banned, avoid) ->
  validate_response_against_protocol lower json_loads w text (PDict d)
  = inr (PDict
           [ ("valid", PBool (Nat.eqb (List.length (found lower text banned avoid)) 0));
             ("violations", PList (found lower text banned avoid));
             ("passed_checks",
              PList (match found lower text banned avoid with
                     | [] => (cleared lower text banned ++ [vocabulary_and_language])%list
                     | _ :: _ => cleared lower text banned
                     end));
             ("recommendation",
              PStr (match found lower text banned avoid with
                    | _ :: _ => recommend_fix
                    | [] => recommend_pass
                    end)) ]).
Proof.
  intros H. unfold word_lists_of in H.
  repeat (let a := fresh "x" in
          let E := fresh "E" in
          apply and_then_some in H; destruct H as (a & E & H)).
  inversion H; subst; clear H.
  unfold validate_response_against_protocol, get_operational_protocol.
  cbn [is_None bind ret Monad_either py_get].
  repeat match goal with
         | E : section ?k ?p = Some _ |- _ =>
             rewrite (section_some _ _ _ E); clear E;
             cbn [bind ret Monad_either py_get]
         | E : string_list ?k ?p = Some _ |- _ =>
             rewrite (string_list_some _ _ _ E); clear E;
             cbn [bind ret Monad_either py_get py_iter]
         end.
  rewrite banned_loop. cbn [bind ret Monad_either fst snd app].
  rewrite avoid_loop. cbn [bind ret Monad_either].
  reflexivity.
Qed.

Lemma str_field_some key e s :
  str_field key e = Some s -> get_default key e (PStr "") = PStr s.
Proof.
  unfold str_field, get_default.
  destruct (dict_get key e) as [[]|]; intros H; inversion H; reflexivity.
Qed.

Lemma for_each_app {S X} (body : S -> X -> py S) (l1 l2 : list X) : forall st,
  for_each body (l1 ++ l2) st
  = (st' <- for_each body l1 st ;; for_each body l2 st').
Proof.
  induction l1 as [|x l1 IH]; intros st; simpl; [reflexivity|].
  destruct (body st x); simpl; [reflexivity | apply IH].
Qed.

Lemma resolves_ok w root rel :
  resolves w root rel = true ->
  resolve w root rel = inr (resolved_path w root rel).
Proof.
  unfold resolves, resolved_path.
  destruct (resolve w root rel); [discriminate | reflexivity].
Qed.

Lemma resolved_path_ok w root rel p :
  resolve w root rel = inr p ->
  resolves w root rel = true /\ resolved_path w root rel = p.
Proof.
  unfold resolves, resolved_path. intros ->. split; reflexivity.
Qed.

Lemma checkable_ok w root rel :
  checkable w root rel = true ->
  resolves w root rel = true /\ statable w (resolved_path w root rel) = true.
Proof.
  unfold checkable, resolves, resolved_path.
  destruct (resolve w root rel); [discriminate | now split].
Qed.

Lemma paths_loop w root l : forall es acc,
  local_paths_of l = Some es ->
  Forall (fun e => resolves w root (lp_path e) = true) es ->
  for_each
    (fun (out : list source) (entry : pyval) =>
       sid <- py_get entry "id" (PStr "") ;;
       rel <- py_get entry "path" (PStr "") ;;
       desc <- py_get entry "description" (PStr "") ;;
       abs_path <- join_resolve w root rel ;;
       ret (out ++ [(sid, abs_path, desc)])%list)
    l acc
  = inr (acc ++ map (resolved w root) es)%list.
Proof.
  induction l as [|v l IH]; intros es acc H Hres; simpl in H.
  - inversion H. simpl. now rewrite app_nil_r.
  - apply and_then_some in H. destruct H as (e & Ev & H).
    apply and_then_some in H. destruct H as (es' & El & H).
    inversion H; subst es; clear H.
    inversion Hres as [|? ? He Hes']; subst.
    destruct v; try discriminate. simpl in Ev.
    apply and_then_some in Ev. destruct Ev as (id & Eid & Ev).
    apply and_then_some in Ev. destruct Ev as (path & Epath & Ev).
    inversion Ev; subst e; clear Ev. cbn [lp_path] in He.
    cbn [for_each py_get bind ret Monad_either].
    rewrite (str_field_some _ _ _ Eid), (str_field_some _ _ _ Epath).
    cbn [join_resolve]. rewrite (resolves_ok _ _ _ He).
    cbn [bind ret Monad_either].
    rewrite (IH es' _ El Hes'), <- app_assoc. reflexivity.
Qed.

(** The listing of a well-shaped document whose paths all resolve: its
    entries in declaration order, each path resolved against the root. *)
Lemma get_local_source_paths_closed_form w root d es :
  declared_sources d = Some es ->
  Forall (fun e => resolves w root (lp_path e) = true) es ->
  get_local_source_paths json_loads w (Some root) (PDict d)
  = inr (map (resolved w root) es).
Proof.
  intros H Hres. unfold declared_sources in H.
  repeat (let a := fresh "x" in
          let E := fresh "E" in
          apply and_then_some in H; destruct H as (a & E & H)).
  unfold get_local_source_paths, get_data_sources.
  cbn [is_None bind ret Monad_either py_get].
  repeat match goal with
         | E : section ?k ?p = Some _ |- _ =>
             rewrite (section_some _ _ _ E); clear E;
             cbn [bind ret Monad_either py_get]
         end.
  unfold get_default.
  destruct (dict_get "local_paths" x1) as [[]|]; try discriminate;
    cbn [py_iter bind ret Monad_either].
  - exact (paths_loop w root _ _ [] H Hres).
  - inversion H. reflexivity.
Qed.

Lemma load_body_str w out sid abs_path desc :
  statable w abs_path = true ->
  load_body lower json_loads key_eq suffix w out (PStr sid, abs_path, desc)
  = inr (map_put key_eq (PStr sid) (content lower json_loads suffix w abs_path) out).
Proof.
  unfold statable, load_body, content, path_exists, read_text, set_item.
  destruct (stat w abs_path) as [|e0|e|s]; intros Hs; try discriminate; cbn;
    try reflexivity.
  destruct (String.eqb (lower (suffix abs_path)) ".json"); cbn; try reflexivity.
  destruct (json_loads s); reflexivity.
Qed.

Lemma load_loop w root es : forall out,
  Forall (fun e => statable w (resolved_path w root (lp_path e)) = true) es ->
  for_each (load_body lower json_loads key_eq suffix w) (map (resolved w root) es) out
  = inr (fold_left (store lower json_loads key_eq suffix w) (map (resolved w root) es) out).
Proof.
  induction es as [|e es IH]; intros out Hs; cbn [map for_each fold_left];
    [reflexivity|].
  inversion Hs as [|? ? He Hes]; subst.
  unfold resolved at 1. rewrite (load_body_str _ _ _ _ _ He).
  cbn [bind ret Monad_either]. rewrite (IH _ Hes). reflexivity.
Qed.

Lemma checkable_all w root (es : list local_path) :
  Forall (fun e => checkable w root (lp_path e) = true) es ->
  Forall (fun e => resolves w root (lp_path e) = true) es
  /\ Forall (fun e => statable w (resolved_path w root (lp_path e)) = true) es.
Proof.
  induction 1 as [|e es He Hes [IH1 IH2]]; [split; constructor|].
  destruct (checkable_ok _ _ _ He). split; constructor; assumption.
Qed.

Lemma str_keys_put k v out :
  str_keys out -> str_keys (map_put key_eq (PStr k) v out).
Proof.
  unfold str_keys. induction out as [|[k' x] out IH]; intros H; simpl.
  - constructor; [exists k; reflexivity | constructor].
  - inversion H; subst.
    destruct (key_eq k' (PStr k)); constructor; auto.
Qed.

Lemma map_get_put_same k v out :
  str_keys out -> map_get key_eq (PStr k) (map_put key_eq (PStr k) v out) = Some v.
Proof.
  unfold str_keys. induction out as [|[k' x] out IH]; intros H; simpl.
  - now rewrite key_eq_str, String.eqb_refl.
  - inversion H; subst.
    destruct (key_eq k' (PStr k)) eqn:E; simpl; rewrite E; auto.
Qed.

Lemma map_get_put_other k k' v out :
  k' <> k -> str_keys out ->
  map_get key_eq (PStr k) (map_put key_eq (PStr k') v out) = map_get key_eq (PStr k) out.
Proof.
  unfold str_keys. intros Hne. induction out as [|[k0 x] out IH]; intros H; simpl.
  - rewrite key_eq_str. now apply String.eqb_neq in Hne as ->.
  - inversion H as [|? ? [s Hs] Hrest]; subst. simpl in Hs; subst k0.
    rewrite !key_eq_str.
    destruct (String.eqb s k') eqn:E1; simpl; rewrite !key_eq_str.
    + apply String.eqb_eq in E1; subst s.
      now apply String.eqb_neq in Hne as ->.
    + destruct (String.eqb s k); auto.
Qed.

Lemma stores_keep_str_keys w root es : forall out,
  str_keys out -> str_keys (fold_left (store lower json_loads key_eq suffix w) (map (resolved w root) es) out).
Proof.
  induction es as [|e es IH]; intros out H; simpl; [exact H|].
  apply IH. unfold store; simpl. now apply str_keys_put.
Qed.

Lemma later_stores_keep w root k es : forall out,
  (forall e, In e es -> lp_id e <> k) -> str_keys out ->
  map_get key_eq (PStr k) (fold_left (store lower json_loads key_eq suffix w) (map (resolved w root) es) out)
  = map_get key_eq (PStr k) out.
Proof.
  induction es as [|e es IH]; intros out Hk H; simpl; [reflexivity|].
  rewrite IH.
  - unfold store; simpl. apply map_get_put_other; [apply Hk; now left | exact H].
  - intros e' He'. apply Hk. now right.
  - unfold store; simpl. now apply str_keys_put.
Qed.

(** The loader returns on a well-shaped document whose paths all resolve
    and can all be checked, and the last entry declared with an id decides
    what the id maps to. *)
Lemma load_local_sources_closed_form w repo_root d es :
  declared_sources d = Some es ->
  let root := match repo_root with Some r => r | None => here w end in
  Forall (fun e => checkable w root (lp_path e) = true) es ->
  exists out,
    load_local_sources lower json_loads key_eq suffix w repo_root (PDict d) = inr out
    /\ forall before e after,
         es = (before ++ e :: after)%list ->
         (forall e', In e' after -> lp_id e' <> lp_id e) ->
         map_get key_eq (PStr (lp_id e)) out
         = Some (content lower json_loads suffix w
                   (resolved_path w root (lp_path e))).
Proof.
  intros H root Hall. destruct (checkable_all w root es Hall) as [Hres Hstat].
  exists (fold_left (store lower json_loads key_eq suffix w) (map (resolved w root) es) []). split.
  - unfold load_local_sources. cbn [is_None bind ret Monad_either]. fold root.
    rewrite (get_local_source_paths_closed_form w root d es H Hres).
    cbn [bind ret Monad_either]. now apply load_loop.
  - intros before e after -> Hlast.
    rewrite map_app, fold_left_app. simpl.
    rewrite later_stores_keep; [| exact Hlast |].
    + unfold store at 1; simpl. apply map_get_put_same.
      apply stores_keep_str_keys. constructor.
    + unfold store at 1; simpl. apply str_keys_put.
      apply stores_keep_str_keys. constructor.
Qed.



Lemma in_found_banned text banned avoid t :
  In (banned_term (PStr t)) (found lower text banned avoid)
  <-> In t banned /\ matches lower text t = true.
Proof.
  unfold found. rewrite in_app_iff, !in_map_iff. split.
  - intros [(x & Hx & Hin) | (x & Hx & _)]; [|discriminate].
    inversion Hx; subst x. now apply filter_In in Hin.
  - intros H. left. exists t. split; [reflexivity | now apply filter_In].
Qed.

Lemma summary_not_cleared text banned :
  ~ In vocabulary_and_language (cleared lower text banned).
Proof.
  unfold cleared. rewrite in_map_iff. intros (x & Hx & _). discriminate.
Qed.

(** C1.  On a protocol document whose banned terms are [banned], the report
    lists a [banned_term] violation for a banned term [t] exactly when the
    lower-cased [t] occurs somewhere inside the lower-cased response, and
    the record carries [t] as written in the document.  In particular, with
    "guarantee" banned, the response "We GUARANTEE results" is reported with
    that violation and [valid] is false. *)
Theorem banned_term_reported_iff_contained w text d banned avoid :
  word_lists_of d = Some (banned, avoid) ->
  exists r violations,
    validate w text (PDict d) = inr r
    /\ get_path ["violations"] r = Some (PList violations)
    /\ (forall t, In t banned ->
          (In (PDict [("type", PStr "banned_term"); ("value", PStr t)]) violations
           <-> exists pre post, lower text = pre ++ lower t ++ post))
    /\ (In "guarantee" banned -> text = "We GUARANTEE results" ->
          In (PDict [("type", PStr "banned_term"); ("value", PStr "guarantee")])
             violations
          /\ get_path ["valid"] r = Some (PBool false)).
Proof.
  intros H. rewrite (validate_closed_form w text d _ _ H).
  eexists. exists (found lower text banned avoid).
  split; [reflexivity|]. split; [reflexivity|]. split.
  - intros t Ht. fold (banned_term (PStr t)).
    rewrite in_found_banned, <- str_in_spec. unfold matches.
    split; [intros [_ Hm]; exact Hm | intros Hm; split; assumption].
  - intros Hin ->. fold (banned_term (PStr "guarantee")).
    assert (In (banned_term (PStr "guarantee"))
              (found lower "We GUARANTEE results" banned avoid)) as Hv.
    { apply in_found_banned. split; [exact Hin|]. unfold matches.
      rewrite !lower_ascii by reflexivity. reflexivity. }
    split; [exact Hv|].
    destruct (found lower "We GUARANTEE results" banned avoid);
      [destruct Hv | reflexivity].
Qed.

(** C2.  The violations are the matching banned terms followed by the
    matching avoided phrases, each group in declaration order.  Every banned
    term that does not match leaves a [banned_term_absent] record with that
    term as value; the passed checks hold nothing else but the summary
    record, so an avoided phrase that does not match leaves no record. *)
Theorem passed_checks_only_for_banned_terms w text d banned avoid :
  word_lists_of d = Some (banned, avoid) ->
  exists r violations passed,
    validate w text (PDict d) = inr r
    /\ get_path ["violations"] r = Some (PList violations)
    /\ get_path ["passed_checks"] r = Some (PList passed)
    /\ violations
       = (map (fun t => PDict [("type", PStr "banned_term"); ("value", PStr t)])
            (filter (matches lower text) banned)
          ++ map (fun p => PDict [("type", PStr "language_avoid"); ("value", PStr p)])
               (filter (matches lower text) avoid))%list
    /\ (exists summary,
          passed
          = (map (fun t => PDict [("type", PStr "banned_term_absent"); ("value", PStr t)])
               (filter (fun t => negb (matches lower text t)) banned)
             ++ summary)%list
          /\ (summary = [] \/ summary = [vocabulary_and_language]))
    /\ (forall t, In t banned -> matches lower text t = false ->
          In (PDict [("type", PStr "banned_term_absent"); ("value", PStr t)]) passed)
    /\ (forall x, In x passed ->
          x = vocabulary_and_language
          \/ exists t, In t banned /\ matches lower text t = false
                       /\ x = PDict [("type", PStr "banned_term_absent");
                                     ("value", PStr t)]).
Proof.
  intros H. rewrite (validate_closed_form w text d _ _ H).
  eexists. exists (found lower text banned avoid). eexists.
  split; [reflexivity|]. split; [reflexivity|]. split; [reflexivity|].
  split; [reflexivity|].
  assert (forall t, In t banned -> matches lower text t = false ->
                    In (banned_term_absent (PStr t)) (cleared lower text banned))
    as Hin.
  { intros t Ht Hm. unfold cleared. apply in_map_iff. exists t.
    split; [reflexivity|]. apply filter_In. now rewrite Hm. }
  assert (forall x, In x (cleared lower text banned) ->
                    exists t, In t banned /\ matches lower text t = false
                              /\ x = banned_term_absent (PStr t)) as Hout.
  { intros x Hx. unfold cleared in Hx. apply in_map_iff in Hx.
    destruct Hx as (t & <- & Ht). apply filter_In in Ht. destruct Ht as [Ht Hm].
    exists t. repeat split; [exact Ht|]. now destruct (matches lower text t). }
  destruct (found lower text banned avoid); (split; [|split]).
  - exists [vocabulary_and_language]. split; [reflexivity | now right].
  - intros t Ht Hm. apply in_or_app. left. now apply Hin.
  - intros x Hx. apply in_app_or in Hx. destruct Hx as [Hx | [<- | []]].
    + right. now apply Hout.
    + now left.
  - exists []. split; [now rewrite app_nil_r | now left].
  - exact Hin.
  - intros x Hx. right. now apply Hout.
Qed.

(** C3.  When no violation was found, the summary record
    [vocabulary_and_language] is appended once, after the other passed
    checks; when one was found it is not appended.  With no banned terms and
    no avoided phrases, [valid] is true and the summary is the only passed
    check. *)
Theorem summary_record_when_clean w text d banned avoid :
  word_lists_of d = Some (banned, avoid) ->
  exists r violations passed,
    validate w text (PDict d) = inr r
    /\ get_path ["violations"] r = Some (PList violations)
    /\ get_path ["passed_checks"] r = Some (PList passed)
    /\ (violations = [] ->
        exists checks,
          passed
          = (checks
             ++ [PDict [("type", PStr "vocabulary_and_language");
                        ("message", PStr "No banned terms or avoided phrases detected")]])%list
          /\ ~ In vocabulary_and_language checks)
    /\ (violations <> [] -> ~ In vocabulary_and_language passed)
    /\ (banned = [] -> avoid = [] ->
        get_path ["valid"] r = Some (PBool true)
        /\ passed = [vocabulary_and_language]).
Proof.
  intros H. rewrite (validate_closed_form w text d _ _ H).
  eexists. exists (found lower text banned avoid). eexists.
  split; [reflexivity|]. split; [reflexivity|]. split; [reflexivity|].
  split; [|split].
  - intros ->. exists (cleared lower text banned).
    split; [reflexivity | apply summary_not_cleared].
  - intros Hne. destruct (found lower text banned avoid); [now elim Hne|].
    apply summary_not_cleared.
  - intros -> ->. split; reflexivity.
Qed.

(** C4.  [valid] is true exactly when the violations list is empty; the
    recommendation is one fixed text when there are violations and another
    fixed text when there are none. *)
Theorem valid_iff_no_violations w text d banned avoid :
  word_lists_of d = Some (banned, avoid) ->
  exists r valid violations recommendation,
    validate w text (PDict d) = inr r
    /\ get_path ["valid"] r = Some (PBool valid)
    /\ get_path ["violations"] r = Some (PList violations)
    /\ get_path ["recommendation"] r = Some (PStr recommendation)
    /\ (valid = true <-> violations = [])
    /\ (violations <> [] -> recommendation = recommend_fix)
    /\ (violations = [] -> recommendation = recommend_pass)
    /\ recommend_fix <> recommend_pass.
Proof.
  intros H. rewrite (validate_closed_form w text d _ _ H).
  eexists. eexists. exists (found lower text banned avoid). eexists.
  split; [reflexivity|]. split; [reflexivity|]. split; [reflexivity|].
  split; [reflexivity|].
  destruct (found lower text banned avoid); simpl; repeat split;
    try discriminate; try reflexivity; intros Hx; congruence.
Qed.

(** C10.  When the empty string is among the banned terms, every response,
    the empty one included, is reported with a [banned_term] violation whose
    value is the empty string, and [valid] is false. *)
Theorem empty_banned_term_always_matches w text d banned avoid :
  word_lists_of d = Some (banned, avoid) ->
  In "" banned ->
  exists r violations,
    validate w text (PDict d) = inr r
    /\ get_path ["violations"] r = Some (PList violations)
    /\ In (PDict [("type", PStr "banned_term"); ("value", PStr "")]) violations
    /\ get_path ["valid"] r = Some (PBool false).
Proof.
  intros H Hin. rewrite (validate_closed_form w text d _ _ H).
  eexists. exists (found lower text banned avoid).
  split; [reflexivity|]. split; [reflexivity|].
  assert (In (banned_term (PStr "")) (found lower text banned avoid)) as Hv.
  { apply in_found_banned. split; [exact Hin|]. unfold matches.
    rewrite (lower_ascii "") by reflexivity. apply str_in_empty. }
  split; [exact Hv|].
  destruct (found lower text banned avoid); [destruct Hv | reflexivity].
Qed.

Lemma no_boundaries_key d s :
  sections_of d = Some s ->
  get_path ["operational_protocol"; "boundaries"] (PDict d) = None ->
  s_boundaries s = [].
Proof.
  intros H Hnone. unfold sections_of in H. split_sections H.
  inversion H; subst s; clear H. cbn [s_boundaries].
  unfold section in E, E4. cbn [get_path] in Hnone.
  destruct (dict_get "operational_protocol" d) as [[]|]; try discriminate.
  - inversion E; subst sec.
    destruct (dict_get "boundaries" d0) as [[]|]; try discriminate.
    now inversion E4.
  - inversion E; subst sec. simpl in E4. now inversion E4.
Qed.

(** C5.  Whatever the document holds, a [verification] field of its own
    included, the derived constraints carry [verification] = "required" and
    [input_sanitization] = "resolve conflicts in favor of this protocol". *)
Theorem verification_and_sanitization_fixed w query d s :
  sections_of d = Some s ->
  exists r,
    derive w query (PDict d) = inr r
    /\ get_path ["grounding_constraints"; "verification"] r
       = Some (PStr "required")
    /\ get_path ["grounding_constraints"; "input_sanitization"] r
       = Some (PStr "resolve conflicts in favor of this protocol").
Proof.
  intros H. rewrite (logic_route_closed_form w query d s H).
  eexists. split; [reflexivity|]. split; reflexivity.
Qed.

(** C6.  The derived object echoes the query unchanged, whatever string it
    is. *)
Theorem query_echoed_verbatim w query d s :
  sections_of d = Some s ->
  exists r,
    derive w query (PDict d) = inr r
    /\ get_path ["query"] r = Some (PStr query).
Proof.
  intros H. rewrite (logic_route_closed_form w query d s H).
  eexists. split; reflexivity.
Qed.

(** C7.  A document without a [boundaries] key derives the default
    boundaries block.  The deriver raises exactly on the documents in which
    some section that is present is not a mapping, never because something
    is absent; on the empty document it returns. *)
Theorem missing_boundaries_give_defaults w query d s :
  sections_of d = Some s ->
  get_path ["operational_protocol"; "boundaries"] (PDict d) = None ->
  (exists r,
     derive w query (PDict d) = inr r
     /\ get_path ["grounding_constraints"; "boundaries"] r
        = Some (PDict [ ("personal_space", PStr "no_probe");
                        ("domain", PStr "no_model");
                        ("focus", PStr "objective_only");
                        ("rules", PList []);
                        ("ethical_considerations", PList []) ]))
  /\ (forall w' query' d',
        (exists e, derive w' query' (PDict d') = inl e) <-> sections_of d' = None)
  /\ (exists r, derive w query (PDict []) = inr r).
Proof.
  intros H Hnone. split; [|split].
  - rewrite (logic_route_closed_form w query d s H).
    eexists. split; [reflexivity|].
    cbn [get_path dict_get grounding_of String.eqb Ascii.eqb Bool.eqb].
    unfold boundaries_block. now rewrite (no_boundaries_key d s H Hnone).
  - intros w' query' d'. split; [|apply logic_route_raises].
    intros [e He].
    destruct (sections_of d') as [s'|] eqn:E; [|reflexivity].
    rewrite (logic_route_closed_form w' query' d' s' E) in He.
    discriminate.
  - eexists. reflexivity.
Qed.

(** C8.  Given the document, the deriver's outcome is a function of the
    query and the document alone: it is the same in any two states of the
    world outside the process and with any two JSON loaders. *)
Theorem derive_ignores_world json_loads' w1 w2 query (d : pydict) :
  logic_route json_loads w1 query (PDict d)
  = logic_route json_loads' w2 query (PDict d).
Proof. reflexivity. Qed.

(** C9.  The load is aborted by a source whose existence check raises:
    when the entries declared before it load, and the resolved path of an
    entry cannot be looked at, the loader raises that error and maps no id
    at all, not even the ids of missing sources declared before it. *)
Theorem failing_existence_check_aborts_load w repo_root d before e after
    abs_path err :
  declared_sources d = Some (before ++ e :: after)%list ->
  let root := match repo_root with Some r => r | None => here w end in
  Forall (fun b => checkable w root (lp_path b) = true) before ->
  Forall (fun a => resolves w root (lp_path a) = true) after ->
  resolve w root (lp_path e) = inr abs_path ->
  stat w abs_path = Unstatable err ->
  load_local_sources lower json_loads key_eq suffix w repo_root (PDict d) = inl err.
Proof.
  intros H root Hbefore Hafter He Hstat.
  destruct (checkable_all w root before Hbefore) as [Hres Hok].
  destruct (resolved_path_ok _ _ _ _ He) as [Hre Hpath].
  unfold load_local_sources. cbn [is_None bind ret Monad_either]. fold root.
  rewrite (get_local_source_paths_closed_form w root d _ H).
  - cbn [bind ret Monad_either].
    rewrite map_app, for_each_app, (load_loop w root before [] Hok).
    cbn [bind ret Monad_either map for_each].
    change (resolved w root e)
      with (PStr (lp_id e), resolved_path w root (lp_path e), lp_description e).
    rewrite Hpath. unfold load_body at 1, path_exists. rewrite Hstat.
    reflexivity.
  - apply Forall_app. split; [exact Hres|]. constructor; assumption.
Qed.

End Properties.

(** Without a document the deriver loads one, and then the world shows. *)
Example derive_without_document_reads_world :
  logic_route literal_loads sample_world "q" PNone
  <> logic_route literal_loads empty_world "q" PNone.
Proof. vm_compute. discriminate. Qed.

(** * The properties on the sample installation *)

Lemma banned_term_reported_iff_contained_witness :
  exists r violations,
    validate_response_against_protocol ascii_lower literal_loads empty_world
      "We GUARANTEE results" (PDict sample_protocol) = inr r
    /\ get_path ["violations"] r = Some (PList violations)
    /\ In (PDict [("type", PStr "banned_term"); ("value", PStr "guarantee")])
          violations
    /\ get_path ["valid"] r = Some (PBool false).
Proof.
  destruct (banned_term_reported_iff_contained ascii_lower literal_loads
              (fun s _ => eq_refl) empty_world "We GUARANTEE results"
              sample_protocol ["guarantee"; "Art"] ["as an AI"] eq_refl)
    as (r & violations & Hr & Hv & _ & Hg).
  destruct (Hg (or_introl eq_refl) eq_refl) as [Hin Hvalid].
  exists r, violations. repeat split; assumption.
Defined.

Lemma passed_checks_only_for_banned_terms_witness :
  exists r passed,
    validate_response_against_protocol ascii_lower literal_loads empty_world
      "We GUARANTEE results" (PDict sample_protocol) = inr r
    /\ get_path ["passed_checks"] r = Some (PList passed)
    /\ In (PDict [("type", PStr "banned_term_absent"); ("value", PStr "Art")]) passed
    /\ forall x, In x passed ->
         x = vocabulary_and_language
         \/ exists t, In t ["guarantee"; "Art"]
                      /\ x = PDict [("type", PStr "banned_term_absent");
                                    ("value", PStr t)].
Proof.
  destruct (passed_checks_only_for_banned_terms ascii_lower literal_loads
              empty_world "We GUARANTEE results"
              sample_protocol ["guarantee"; "Art"] ["as an AI"] eq_refl)
    as (r & violations & passed & Hr & _ & Hp & _ & _ & Hin & Hout).
  exists r, passed. repeat split; try assumption.
  - apply Hin; [right; left; reflexivity | reflexivity].
  - intros x Hx. destruct (Hout x Hx) as [-> | (t & Ht & _ & ->)];
      [now left | right; exists t; now split].
Defined.

Lemma summary_record_when_clean_witness :
  exists r,
    validate_response_against_protocol ascii_lower literal_loads empty_world
      "Anything at all" (PDict bare_protocol) = inr r
    /\ get_path ["valid"] r = Some (PBool true)
    /\ get_path ["passed_checks"] r = Some (PList [vocabulary_and_language]).
Proof.
  destruct (summary_record_when_clean ascii_lower literal_loads
              empty_world "Anything at all" bare_protocol [] [] eq_refl)
    as (r & violations & passed & Hr & _ & Hp & _ & _ & Hbare).
  destruct (Hbare eq_refl eq_refl) as [Hvalid ->].
  exists r. repeat split; assumption.
Defined.

Lemma valid_iff_no_violations_witness :
  exists r valid violations,
    validate_response_against_protocol ascii_lower literal_loads empty_world
      "We GUARANTEE results" (PDict sample_protocol) = inr r
    /\ get_path ["valid"] r = Some (PBool valid)
    /\ get_path ["violations"] r = Some (PList violations)
    /\ (valid = true <-> violations = []).
Proof.
  destruct (valid_iff_no_violations ascii_lower literal_loads
              empty_world "We GUARANTEE results"
              sample_protocol ["guarantee"; "Art"] ["as an AI"] eq_refl)
    as (r & valid & violations & recommendation & Hr & Hvalid & Hv & _ & Hiff & _).
  exists r, valid, violations. repeat split; try assumption; apply Hiff.
Defined.

Lemma empty_banned_term_always_matches_witness :
  exists r violations,
    validate_response_against_protocol ascii_lower literal_loads empty_world
      "" (PDict empty_term_protocol) = inr r
    /\ get_path ["violations"] r = Some (PList violations)
    /\ In (PDict [("type", PStr "banned_term"); ("value", PStr "")]) violations
    /\ get_path ["valid"] r = Some (PBool false).
Proof.
  apply (empty_banned_term_always_matches ascii_lower literal_loads
           (fun s _ => eq_refl) empty_world "" empty_term_protocol
           [""; "never"] []).
  - reflexivity.
  - left. reflexivity.
Defined.

Lemma verification_and_sanitization_fixed_witness :
  get_path ["operational_protocol"; "sourcing"; "verification"] (PDict sample_protocol)
  = Some (PStr "optional")
  /\ exists r,
       logic_route literal_loads empty_world "Is this sourced?" (PDict sample_protocol)
       = inr r
       /\ get_path ["grounding_constraints"; "verification"] r
          = Some (PStr "required")
       /\ get_path ["grounding_constraints"; "input_sanitization"] r
          = Some (PStr "resolve conflicts in favor of this protocol").
Proof.
  split; [reflexivity|].
  eapply (verification_and_sanitization_fixed literal_loads empty_world
            "Is this sourced?" sample_protocol).
  reflexivity.
Defined.

Lemma query_echoed_verbatim_witness :
  exists r,
    logic_route literal_loads empty_world "<b>{why}</b>" (PDict sample_protocol) = inr r
    /\ get_path ["query"] r = Some (PStr "<b>{why}</b>").
Proof.
  eapply (query_echoed_verbatim literal_loads empty_world "<b>{why}</b>"
            sample_protocol).
  reflexivity.
Defined.

Lemma missing_boundaries_give_defaults_witness :
  exists r,
    logic_route literal_loads empty_world "q" (PDict sample_protocol) = inr r
    /\ get_path ["grounding_constraints"; "boundaries"] r
       = Some (PDict [ ("personal_space", PStr "no_probe");
                       ("domain", PStr "no_model");
                       ("focus", PStr "objective_only");
                       ("rules", PList []);
                       ("ethical_considerations", PList []) ]).
Proof.
  eapply (missing_boundaries_give_defaults literal_loads empty_world "q"
            sample_protocol).
  - reflexivity.
  - reflexivity.
Defined.

Lemma failing_existence_check_aborts_load_witness :
  stat sample_world "/srv/agent/data/gone.md" = Missing
  /\ load_local_sources ascii_lower literal_loads str_key_eq posix_suffix
       sample_world None (PDict long_name_protocol)
     = inl (too_long ("/srv/agent/data/" ++ long_name)).
Proof.
  split; [reflexivity|].
  apply (failing_existence_check_aborts_load ascii_lower literal_loads
           str_key_eq posix_suffix sample_world None long_name_protocol
           [sample_source "gone" "data/gone.md"]
           (sample_source "long" ("data/" ++ long_name)) []
           ("/srv/agent/data/" ++ long_name)
           (too_long ("/srv/agent/data/" ++ long_name))).
  - reflexivity.
  - repeat constructor.
  - constructor.
  - reflexivity.
  - reflexivity.
Defined.

(** * Further properties of the deriver *)

Ltac split_and_then H :=
  repeat (let a := fresh "x" in
          let E := fresh "E" in
          apply and_then_some in H; destruct H as (a & E & H)).

Ltac resolve_sections :=
  repeat match goal with
         | E : section ?k ?p = Some _ |- _ =>
             rewrite (section_some _ _ _ E); clear E;
             cbn [bind ret Monad_either py_get]
         end.

Section DeriverCoverage.

Variable json_loads : string -> py pyval.

Local Abbreviation derive := (logic_route json_loads).

Ltac raise_at_section H :=
  match type of H with
  | and_then (section ?k ?p) _ = None =>
      let E := fresh "E" in
      let e := fresh "e" in
      let He := fresh "He" in
      destruct (section k p) eqn:E; cbn [and_then] in H;
      [ rewrite (section_some _ _ _ E); cbn [bind ret Monad_either py_get]
      | destruct (section_none _ _ E) as [e He]; repeat rewrite He;
        exists e; intros; reflexivity ]
  end.

(** The exception raised on an ill-shaped document is fixed by the document
    alone. *)
Lemma logic_route_raises_uniformly d :
  sections_of d = None ->
  exists e, forall w query, derive w query (PDict d) = inl e.
Proof.
  intros H. unfold sections_of in H.
  unfold logic_route, get_operational_protocol.
  cbn [is_None bind ret Monad_either py_get].
  repeat raise_at_section H.
  discriminate.
Qed.

(** X1.  The same constraints apply to every query: a document fixes either the
    [grounding_constraints] block that every query gets back, next to the
    query itself and the fixed note, or the exception that every query
    raises. *)
Theorem constraints_same_for_every_query (d : pydict) :
  (exists g, forall w query,
      derive w query (PDict d)
      = inr (PDict [ ("query", PStr query);
                     ("grounding_constraints", PDict g);
                     ("logic_route_note", PStr logic_route_note) ]))
  \/ (exists e, forall w query, derive w query (PDict d) = inl e).
Proof.
  destruct (sections_of d) as [s|] eqn:E.
  - left. exists (grounding_of s). intros w query.
    now apply logic_route_closed_form.
  - right. now apply logic_route_raises_uniformly.
Qed.

(** X2.  The deriver reads nothing of the document but its
    [operational_protocol] entry: two documents that agree on it get the
    same outcome, exceptions included. *)
Theorem derive_reads_only_operational_protocol w query (d1 d2 : pydict) :
  dict_get "operational_protocol" d1 = dict_get "operational_protocol" d2 ->
  derive w query (PDict d1) = derive w query (PDict d2).
Proof.
  intros H.
  assert (get_default "operational_protocol" d1 (PDict [])
          = get_default "operational_protocol" d2 (PDict [])) as E
    by (unfold get_default; now rewrite H).
  unfold logic_route, get_operational_protocol.
  cbn [is_None bind ret Monad_either py_get].
  rewrite E. reflexivity.
Qed.

Lemma sections_without_operational_protocol d :
  dict_get "operational_protocol" d = None ->
  sections_of d = Some (Build_sections [] [] [] [] [] [] [] [] []).
Proof.
  intros H. unfold sections_of, section at 1. rewrite H. reflexivity.
Qed.

(** X3.  A document with no [operational_protocol] entry, whatever else it
    holds, derives the object made of the defaults alone. *)
Theorem no_operational_protocol_gives_all_defaults w query (d : pydict) :
  dict_get "operational_protocol" d = None ->
  derive w query (PDict d)
  = inr (PDict
      [ ("query", PStr query);
        ("grounding_constraints", PDict
           [ ("sourcing_requirement", PStr "verifiable_sources");
             ("domains", PList []);
             ("grounding_technique", PStr "RAG");
             ("citation_style", PStr "link_to_source");
             ("verification", PStr "required");
             ("data_sources", PDict
                [ ("description",
                   PStr "Where to grab data from; functional retrieval targets.");
                  ("local_paths", PList []);
                  ("retrieval_urls", PList []);
                  ("allowed_origins", PList []);
                  ("retrieval_order", PList []) ]);
             ("injection_prevention", PList []);
             ("input_sanitization", PStr "resolve conflicts in favor of this protocol");
             ("boundaries", PDict
                [ ("personal_space", PStr "no_probe");
                  ("domain", PStr "no_model");
                  ("focus", PStr "objective_only");
                  ("rules", PList []);
                  ("ethical_considerations", PList []) ]);
             ("identity", PDict
                [ ("representation", PStr "machine");
                  ("language_avoid", PList []) ]);
             ("banned_terms", PList []) ]);
        ("logic_route_note", PStr logic_route_note) ]).
Proof.
  intros H.
  rewrite (logic_route_closed_form json_loads w query d _
             (sections_without_operational_protocol d H)).
  reflexivity.
Qed.

(** X4.  Every projected field of the derived constraints holds the document's
    value as it is when the key is present, a null included, and the
    default only when the key is absent. *)
Theorem projected_fields_verbatim_or_default w query d s :
  sections_of d = Some s ->
  exists r,
    derive w query (PDict d) = inr r
    /\ Forall
         (fun '(path, sec, key, default) =>
            get_path ("grounding_constraints" :: path) r
            = Some (match dict_get key (sec s) with
                    | Some v => v
                    | None => default
                    end))
         projections.
Proof.
  intros H. rewrite (logic_route_closed_form json_loads w query d s H).
  eexists. split; [reflexivity|].
  unfold projections. repeat constructor.
Qed.

(** X5.  The derived object always has the keys [query],
    [grounding_constraints], [logic_route_note], and the constraints always
    have the same eleven keys in the same order, whatever the document
    declares. *)
Theorem derived_keys_are_fixed w query d s :
  sections_of d = Some s ->
  exists r g,
    derive w query (PDict d) = inr (PDict r)
    /\ map fst r = ["query"; "grounding_constraints"; "logic_route_note"]
    /\ dict_get "grounding_constraints" r = Some (PDict g)
    /\ map fst g
       = [ "sourcing_requirement"; "domains"; "grounding_technique";
           "citation_style"; "verification"; "data_sources";
           "injection_prevention"; "input_sanitization"; "boundaries";
           "identity"; "banned_terms" ].
Proof.
  intros H. rewrite (logic_route_closed_form json_loads w query d s H).
  eexists. exists (grounding_of s).
  split; [reflexivity|]. repeat split; reflexivity.
Qed.

End DeriverCoverage.

(** * Further properties of the validator *)

Section ValidatorCoverage.

Variable lower : string -> string.
Variable json_loads : string -> py pyval.

Hypothesis lower_ascii : forall s, is_ascii s = true -> lower s = ascii_lower s.

Local Abbreviation validate := (validate_response_against_protocol lower json_loads).

Lemma chars_letters s : chars s = map PStr (letters s).
Proof. reflexivity. Qed.

(** A letter of two bytes is one character of the loop. *)
Example accented_word_has_two_letters :
  letters ("n" ++ e_acute) = ["n"; e_acute].
Proof. reflexivity. Qed.

(** A word list given as the str e-acute does not match the response
    e-grave, although the two share their first byte. *)
Example accented_letters_are_not_confused :
  validate_response_against_protocol ascii_lower literal_loads empty_world
    e_grave (PDict (with_banned_terms (PStr e_acute)))
  = inr (PDict [ ("valid", PBool true);
                 ("violations", PList []);
                 ("passed_checks",
                  PList [banned_term_absent (PStr e_acute);
                         vocabulary_and_language]);
                 ("recommendation", PStr recommend_pass) ]).
Proof. reflexivity. Qed.

Lemma scanned_iter key parent ws :
  scanned (dict_get key parent) = Some ws ->
  py_iter (get_default key parent (PList [])) = inr (map PStr ws).
Proof.
  unfold scanned, get_default.
  destruct (dict_get key parent) as [[]|]; intros H; try discriminate; simpl.
  - inversion H. reflexivity.
  - now rewrite (strings_map _ _ H).
  - inversion H. now rewrite map_map.
  - inversion H. reflexivity.
Qed.

(** The report on any document whose two word-list fields can be looped
    over and hold strings only. *)
Lemma validate_scanned_form w text d banned avoid :
  scanned_lists_of d = Some (banned, avoid) ->
  validate w text (PDict d)
  = inr (PDict
           [ ("valid", PBool (Nat.eqb (List.length (found lower text banned avoid)) 0));
             ("violations", PList (found lower text banned avoid));
             ("passed_checks",
              PList (match found lower text banned avoid with
                     | [] => (cleared lower text banned ++ [vocabulary_and_language])%list
                     | _ :: _ => cleared lower text banned
                     end));
             ("recommendation",
              PStr (match found lower text banned avoid with
                    | _ :: _ => recommend_fix
                    | [] => recommend_pass
                    end)) ]).
Proof.
  intros H. unfold scanned_lists_of in H. split_and_then H.
  inversion H; subst; clear H.
  unfold scan_sections_of in E. split_and_then E.
  inversion E; subst; clear E. cbn [v_vocabulary v_language] in *.
  unfold validate_response_against_protocol, get_operational_protocol.
  cbn [is_None bind ret Monad_either py_get].
  resolve_sections.
  rewrite (scanned_iter _ _ _ E0). cbn [bind ret Monad_either].
  rewrite banned_loop. cbn [bind ret Monad_either fst snd app].
  rewrite (scanned_iter _ _ _ E1). cbn [bind ret Monad_either].
  rewrite avoid_loop. cbn [bind ret Monad_either].
  reflexivity.
Qed.

Lemma filter_none {A} (f : A -> bool) (l : list A) :
  filter f l = [] <-> forall x, In x l -> f x = false.
Proof.
  induction l as [|a l IH]; simpl.
  - split; [intros _ x [] | reflexivity].
  - destruct (f a) eqn:E.
    + split; [discriminate|]. intros H. rewrite (H a (or_introl eq_refl)) in E.
      discriminate.
    + rewrite IH. split.
      * intros H x [<- | Hx]; auto.
      * intros H x Hx. apply H. now right.
Qed.

Lemma found_nil text banned avoid :
  found lower text banned avoid = [] <->
  forall x, In x (banned ++ avoid)%list -> matches lower text x = false.
Proof.
  unfold found. split.
  - intros H. apply app_eq_nil in H. destruct H as [Hb Ha].
    apply map_eq_nil in Hb, Ha. rewrite filter_none in Hb, Ha.
    intros x Hx. apply in_app_or in Hx. destruct Hx; auto.
  - intros H.
    assert (filter (matches lower text) banned = []) as ->
      by (apply filter_none; intros x Hx; apply H, in_or_app; now left).
    assert (filter (matches lower text) avoid = []) as ->
      by (apply filter_none; intros x Hx; apply H, in_or_app; now right).
    reflexivity.
Qed.

(** X6.  A response is valid exactly when no banned term and no avoided phrase
    occurs in it, compared in lower case. *)
Theorem valid_iff_nothing_contained w text d banned avoid :
  scanned_lists_of d = Some (banned, avoid) ->
  exists r valid,
    validate w text (PDict d) = inr r
    /\ get_path ["valid"] r = Some (PBool valid)
    /\ (valid = true <->
        forall x, In x (banned ++ avoid)%list ->
                  ~ exists pre post, lower text = pre ++ lower x ++ post).
Proof.
  intros H. rewrite (validate_scanned_form w text d _ _ H).
  eexists. eexists. split; [reflexivity|]. split; [reflexivity|].
  assert (Nat.eqb (List.length (found lower text banned avoid)) 0 = true
          <-> found lower text banned avoid = []) as ->.
  { destruct (found lower text banned avoid); simpl; split;
      (reflexivity || discriminate). }
  rewrite found_nil. split; intros Hall x Hx.
  - rewrite <- str_in_spec. fold (matches lower text x).
    rewrite (Hall x Hx). discriminate.
  - specialize (Hall x Hx). rewrite <- str_in_spec in Hall.
    unfold matches. now destruct (str_in (lower x) (lower text)).
Qed.

Lemma in_found_avoid text banned avoid p :
  In (language_avoid (PStr p)) (found lower text banned avoid)
  <-> In p avoid /\ matches lower text p = true.
Proof.
  unfold found. rewrite in_app_iff, !in_map_iff. split.
  - intros [(x & Hx & _) | (x & Hx & Hin)]; [discriminate|].
    inversion Hx; subst x. now apply filter_In in Hin.
  - intros H. right. exists p. split; [reflexivity | now apply filter_In].
Qed.

(** X7.  An avoided phrase is reported as a [language_avoid] violation, with the
    phrase as the document writes it, exactly when its lower-case form
    occurs inside the lower-cased response. *)
Theorem avoided_phrase_reported_iff_contained w text d banned avoid :
  scanned_lists_of d = Some (banned, avoid) ->
  exists r violations,
    validate w text (PDict d) = inr r
    /\ get_path ["violations"] r = Some (PList violations)
    /\ forall p, In p avoid ->
         (In (PDict [("type", PStr "language_avoid"); ("value", PStr p)]) violations
          <-> exists pre post, lower text = pre ++ lower p ++ post).
Proof.
  intros H. rewrite (validate_scanned_form w text d _ _ H).
  eexists. exists (found lower text banned avoid).
  split; [reflexivity|]. split; [reflexivity|].
  intros p Hp. fold (language_avoid (PStr p)).
  rewrite in_found_avoid, <- str_in_spec. unfold matches.
  split; [intros [_ Hm]; exact Hm | intros Hm; split; assumption].
Qed.

Lemma ascii_lower_char_twice c :
  (nat_of_ascii c <? 128)%nat = true ->
  (nat_of_ascii (ascii_lower_char c) <? 128)%nat = true
  /\ ascii_lower_char (ascii_lower_char c) = ascii_lower_char c.
Proof.
  destruct c as [[] [] [] [] [] [] [] []]; intros H; try discriminate;
    split; reflexivity.
Qed.

Lemma ascii_lower_twice s :
  is_ascii s = true ->
  is_ascii (ascii_lower s) = true /\ ascii_lower (ascii_lower s) = ascii_lower s.
Proof.
  induction s as [|c s IH]; simpl; [split; reflexivity|].
  intros H. apply andb_true_iff in H. destruct H as [Hc Hs].
  destruct (ascii_lower_char_twice c Hc) as [Hc1 Hc2].
  destruct (IH Hs) as [Hs1 Hs2].
  now rewrite Hc1, Hc2, Hs1, Hs2.
Qed.

(** X8.  The letter case of an ASCII response does not matter: its lower-case
    form gets the same outcome on every document, and so do any two ASCII
    responses with the same lower-case form. *)
Theorem response_case_is_ignored w text text' (d : pydict) :
  is_ascii text = true ->
  validate w (ascii_lower text) (PDict d) = validate w text (PDict d)
  /\ (is_ascii text' = true -> ascii_lower text = ascii_lower text' ->
      validate w text (PDict d) = validate w text' (PDict d)).
Proof.
  intros H. destruct (ascii_lower_twice text H) as [Hl Hi].
  unfold validate_response_against_protocol. split.
  - rewrite (lower_ascii _ Hl), Hi, <- (lower_ascii _ H). reflexivity.
  - intros H' Heq. rewrite (lower_ascii _ H), (lower_ascii _ H'), Heq.
    reflexivity.
Qed.

Lemma append_assoc (a b c : string) : (a ++ b) ++ c = a ++ (b ++ c).
Proof. induction a as [|x a IH]; simpl; [reflexivity | now rewrite IH]. Qed.

Lemma ascii_lower_app a b : ascii_lower (a ++ b) = ascii_lower a ++ ascii_lower b.
Proof. induction a as [|x a IH]; simpl; [reflexivity | now rewrite IH]. Qed.

Lemma is_ascii_app a b : is_ascii (a ++ b) = is_ascii a && is_ascii b.
Proof.
  induction a as [|x a IH]; simpl; [reflexivity|].
  now rewrite IH, andb_assoc.
Qed.

Lemma str_in_embedded needle pre hay post :
  str_in needle hay = true -> str_in needle (pre ++ hay ++ post) = true.
Proof.
  rewrite !str_in_spec. intros (p & q & ->).
  exists (pre ++ p), (q ++ post).
  now rewrite !append_assoc.
Qed.

Lemma filter_incl_when {A} (f g : A -> bool) (l : list A) x :
  (forall y, f y = true -> g y = true) ->
  In x (filter f l) -> In x (filter g l).
Proof.
  intros Hfg Hx. apply filter_In in Hx. destruct Hx as [Hin Hf].
  apply filter_In. auto.
Qed.

(** X9.  Putting ASCII text around an ASCII response never removes a violation:
    everything reported for the response is reported for the longer text,
    so a longer text that is valid has only valid parts. *)
Theorem violations_survive_embedding w pre text post d banned avoid :
  scanned_lists_of d = Some (banned, avoid) ->
  is_ascii pre = true -> is_ascii text = true -> is_ascii post = true ->
  exists r1 r2 violations1 violations2 valid1 valid2,
    validate w text (PDict d) = inr r1
    /\ validate w (pre ++ text ++ post) (PDict d) = inr r2
    /\ get_path ["violations"] r1 = Some (PList violations1)
    /\ get_path ["violations"] r2 = Some (PList violations2)
    /\ get_path ["valid"] r1 = Some (PBool valid1)
    /\ get_path ["valid"] r2 = Some (PBool valid2)
    /\ (forall x, In x violations1 -> In x violations2)
    /\ (valid2 = true -> valid1 = true).
Proof.
  intros H Hpre Htext Hpost.
  rewrite !(validate_scanned_form _ _ d _ _ H).
  do 2 eexists. exists (found lower text banned avoid),
    (found lower (pre ++ text ++ post) banned avoid). do 2 eexists.
  repeat (split; [reflexivity|]).
  assert (forall t, matches lower text t = true ->
                    matches lower (pre ++ text ++ post) t = true) as Hmono.
  { intros t. unfold matches.
    rewrite (lower_ascii (pre ++ text ++ post))
      by (now rewrite !is_ascii_app, Hpre, Htext, Hpost).
    rewrite (lower_ascii text Htext), !ascii_lower_app.
    apply str_in_embedded. }
  assert (forall x, In x (found lower text banned avoid) ->
                    In x (found lower (pre ++ text ++ post) banned avoid)) as Hsub.
  { intros x Hx. unfold found in *. apply in_app_or in Hx. apply in_or_app.
    destruct Hx as [Hx | Hx]; [left | right];
      apply in_map_iff in Hx; destruct Hx as (t & <- & Ht);
      apply in_map_iff; exists t; (split; [reflexivity|]);
      eapply filter_incl_when; eauto. }
  split; [exact Hsub|].
  destruct (found lower text banned avoid) as [|x l]; [reflexivity|].
  destruct (found lower (pre ++ text ++ post) banned avoid); [|discriminate].
  destruct (Hsub x (or_introl eq_refl)).
Qed.

Lemma filter_split_length {A} (f : A -> bool) (l : list A) :
  List.length (filter f l) + List.length (filter (fun x => negb (f x)) l)
  = List.length l.
Proof.
  induction l as [|a l IH]; simpl; [reflexivity|].
  destruct (f a); simpl; rewrite <- IH; [reflexivity|].
  now rewrite <- plus_n_Sm.
Qed.

(** X10.  Every banned term leaves exactly one record, a violation or a passed
    check; an avoided phrase leaves one only when it matches; the summary
    adds one when nothing was found. *)
Theorem records_are_counted w text d banned avoid :
  scanned_lists_of d = Some (banned, avoid) ->
  exists r violations passed,
    validate w text (PDict d) = inr r
    /\ get_path ["violations"] r = Some (PList violations)
    /\ get_path ["passed_checks"] r = Some (PList passed)
    /\ List.length violations + List.length passed
       = List.length banned
         + List.length (filter (matches lower text) avoid)
         + match violations with [] => 1 | _ :: _ => 0 end.
Proof.
  intros H. rewrite (validate_scanned_form w text d _ _ H).
  eexists. exists (found lower text banned avoid). eexists.
  repeat (split; [reflexivity|]).
  assert (List.length (found lower text banned avoid)
          + List.length (cleared lower text banned)
          = List.length banned + List.length (filter (matches lower text) avoid))
    as Hcount.
  { unfold found, cleared. rewrite length_app, !length_map.
    rewrite <- (filter_split_length (matches lower text) banned).
    rewrite <- !PeanoNat.Nat.add_assoc. f_equal. apply PeanoNat.Nat.add_comm. }
  destruct (found lower text banned avoid) eqn:E.
  - rewrite length_app. simpl in *. rewrite <- Hcount.
    now rewrite PeanoNat.Nat.add_comm.
  - rewrite Hcount. now rewrite PeanoNat.Nat.add_0_r.
Qed.

(** X11.  A banned term that is not a str makes the validator raise
    [AttributeError] for every response: no report comes back, whatever the
    terms before it found. *)
Theorem non_string_term_raises w text d v terms x rest :
  scan_sections_of d = Some v ->
  dict_get "banned_terms" (v_vocabulary v)
  = Some (PList (map PStr terms ++ x :: rest)) ->
  is_str x = false ->
  validate w text (PDict d)
  = inl (Exn AttributeError
           ("'" ++ type_name x ++ "' object has no attribute 'lower'")).
Proof.
  intros H Hb Hx. unfold scan_sections_of in H. split_and_then H.
  inversion H; subst v; clear H. cbn [v_vocabulary] in Hb.
  unfold validate_response_against_protocol, get_operational_protocol.
  cbn [is_None bind ret Monad_either py_get].
  resolve_sections.
  unfold get_default at 1. rewrite Hb. cbn [py_iter bind ret Monad_either].
  rewrite for_each_app, banned_loop. cbn [bind ret Monad_either for_each].
  unfold banned_body at 1.
  destruct x; try discriminate; reflexivity.
Qed.

(** X12.  A word list that is present but cannot be looped over, a null for
    instance, is not taken as absent: the validator raises [TypeError]. *)
Theorem unloopable_word_list_raises w text d v :
  scan_sections_of d = Some v ->
  (forall x, dict_get "banned_terms" (v_vocabulary v) = Some x ->
             iterable x = false ->
             validate w text (PDict d)
             = inl (Exn TypeError ("'" ++ type_name x ++ "' object is not iterable")))
  /\ (forall banned x,
        scanned (dict_get "banned_terms" (v_vocabulary v)) = Some banned ->
        dict_get "avoid" (v_language v) = Some x ->
        iterable x = false ->
        validate w text (PDict d)
        = inl (Exn TypeError ("'" ++ type_name x ++ "' object is not iterable"))).
Proof.
  intros H. unfold scan_sections_of in H. split_and_then H.
  inversion H; subst v; clear H. cbn [v_vocabulary v_language].
  split.
  - intros val Hb Hx.
    unfold validate_response_against_protocol, get_operational_protocol.
    cbn [is_None bind ret Monad_either py_get].
    resolve_sections.
    unfold get_default at 1. rewrite Hb.
    destruct val; try discriminate; reflexivity.
  - intros banned val Hb Ha Hx.
    unfold validate_response_against_protocol, get_operational_protocol.
    cbn [is_None bind ret Monad_either py_get].
    resolve_sections.
    rewrite (scanned_iter _ _ _ Hb). cbn [bind ret Monad_either].
    rewrite banned_loop. cbn [bind ret Monad_either fst snd app].
    unfold get_default at 1. rewrite Ha.
    destruct val; try discriminate; reflexivity.
Qed.

Lemma strings_none_banned tl l : forall st,
  strings l = None ->
  exists e, for_each (banned_body lower tl) l st = inl e.
Proof.
  induction l as [|x l IH]; intros st H; simpl in H; [discriminate|].
  destruct x; try (eexists; reflexivity).
  destruct (strings l); [discriminate|].
  cbn [for_each]. unfold banned_body at 1. cbn [py_lower bind ret Monad_either].
  destruct (str_in (lower s) tl); cbn [bind ret Monad_either]; now apply IH.
Qed.

Lemma strings_none_avoid tl l : forall st,
  strings l = None ->
  exists e, for_each (avoid_body lower tl) l st = inl e.
Proof.
  induction l as [|x l IH]; intros st H; simpl in H; [discriminate|].
  destruct x; try (eexists; reflexivity).
  destruct (strings l); [discriminate|].
  cbn [for_each]. unfold avoid_body at 1. cbn [py_lower bind ret Monad_either].
  destruct (str_in (lower s) tl); cbn [bind ret Monad_either]; now apply IH.
Qed.

Lemma unscanned_cases key parent :
  scanned (dict_get key parent) = None ->
  (exists e, py_iter (get_default key parent (PList [])) = inl e)
  \/ (exists l, py_iter (get_default key parent (PList [])) = inr l
                /\ strings l = None).
Proof.
  unfold scanned, get_default.
  destruct (dict_get key parent) as [[]|]; intros H; try discriminate;
    try (left; eexists; reflexivity).
  right. eexists. split; [reflexivity | exact H].
Qed.

Lemma validate_raises w text d :
  scanned_lists_of d = None ->
  exists e, validate w text (PDict d) = inl e.
Proof.
  intros H. unfold scanned_lists_of in H.
  unfold validate_response_against_protocol, get_operational_protocol.
  cbn [is_None bind ret Monad_either py_get].
  destruct (scan_sections_of d) as [v|] eqn:Ev.
  - cbn [and_then] in H. unfold scan_sections_of in Ev. split_and_then Ev.
    inversion Ev; subst v; clear Ev. cbn [v_vocabulary v_language] in H.
    resolve_sections.
    destruct (scanned (dict_get "banned_terms" _)) as [banned|] eqn:Eb.
    + cbn [and_then] in H.
      rewrite (scanned_iter _ _ _ Eb). cbn [bind ret Monad_either].
      rewrite banned_loop. cbn [bind ret Monad_either fst snd app].
      destruct (scanned (dict_get "avoid" _)) as [avoid|] eqn:Ea;
        [discriminate|].
      destruct (unscanned_cases _ _ Ea) as [[e He] | (l & Hl & Hs)].
      * rewrite He. exists e. reflexivity.
      * rewrite Hl. cbn [bind ret Monad_either].
        destruct (strings_none_avoid (lower text) l
                    (map (fun t => banned_term (PStr t))
                       (filter (fun t => str_in (lower t) (lower text)) banned))
                    Hs) as [e He].
        rewrite He. exists e. reflexivity.
    + destruct (unscanned_cases _ _ Eb) as [[e He] | (l & Hl & Hs)].
      * rewrite He. exists e. reflexivity.
      * rewrite Hl. cbn [bind ret Monad_either].
        destruct (strings_none_banned (lower text) l ([], []) Hs) as [e He].
        rewrite He. exists e. reflexivity.
  - clear H. unfold scan_sections_of in Ev.
    repeat match type of Ev with
           | and_then (section ?k ?p) _ = None =>
               let E := fresh "E" in
               let e := fresh "e" in
               let He := fresh "He" in
               destruct (section k p) eqn:E; cbn [and_then] in Ev;
               [ rewrite (section_some _ _ _ E);
                 cbn [bind ret Monad_either py_get]
               | destruct (section_none _ _ E) as [e He]; repeat rewrite He;
                 exists e; reflexivity ]
           end.
    discriminate.
Qed.

(** X13.  The validator returns a report exactly on the documents whose
    [operational_protocol], [vocabulary], [identity] and [language]
    sections are mappings (or absent) and whose two word lists can be
    looped over and yield strings only; on every other document it raises.
    Nothing else in the document matters for that. *)
Theorem validate_returns_iff_scannable w text (d : pydict) :
  (exists r, validate w text (PDict d) = inr r) <-> scanned_lists_of d <> None.
Proof.
  split.
  - intros [r Hr] Hnone. destruct (validate_raises w text d Hnone) as [e He].
    rewrite He in Hr. discriminate.
  - intros H. destruct (scanned_lists_of d) as [[banned avoid]|] eqn:E;
      [|now elim H].
    rewrite (validate_scanned_form w text d _ _ E). eexists. reflexivity.
Qed.

(** X14.  A word list given as one str is scanned character by character: each
    character of it is a banned term of its own. *)
Theorem string_word_list_scanned_by_character w text d v word avoid :
  scan_sections_of d = Some v ->
  dict_get "banned_terms" (v_vocabulary v) = Some (PStr word) ->
  scanned (dict_get "avoid" (v_language v)) = Some avoid ->
  exists r violations,
    validate w text (PDict d) = inr r
    /\ get_path ["violations"] r = Some (PList violations)
    /\ forall c, In c (letters word) ->
         (In (PDict [("type", PStr "banned_term"); ("value", PStr c)]) violations
          <-> exists pre post, lower text = pre ++ lower c ++ post).
Proof.
  intros Hv Hb Ha.
  assert (scanned_lists_of d = Some (letters word, avoid)) as H.
  { unfold scanned_lists_of. rewrite Hv. cbn [and_then]. rewrite Hb.
    cbn [scanned and_then]. now rewrite Ha. }
  rewrite (validate_scanned_form w text d _ _ H).
  eexists. exists (found lower text (letters word) avoid).
  split; [reflexivity|]. split; [reflexivity|].
  intros c Hc. fold (banned_term (PStr c)).
  unfold found. rewrite in_app_iff, !in_map_iff, <- str_in_spec. split.
  - intros [(t & Ht & Hin) | (t & Ht & _)]; [|discriminate].
    inversion Ht; subst t. apply filter_In in Hin. apply Hin.
  - intros Hm. left. exists c. split; [reflexivity|]. now apply filter_In.
Qed.

(** X15.  The validator reads nothing of the operational protocol but its
    [vocabulary] and [identity] entries: sourcing, boundaries and the rest
    may be anything. *)
Theorem validate_reads_only_vocabulary_and_identity w text d1 d2 op1 op2 :
  dict_get "operational_protocol" d1 = Some (PDict op1) ->
  dict_get "operational_protocol" d2 = Some (PDict op2) ->
  dict_get "vocabulary" op1 = dict_get "vocabulary" op2 ->
  dict_get "identity" op1 = dict_get "identity" op2 ->
  validate w text (PDict d1) = validate w text (PDict d2).
Proof.
  intros H1 H2 Hv Hi.
  unfold validate_response_against_protocol, get_operational_protocol.
  cbn [is_None bind ret Monad_either py_get].
  assert (get_default "operational_protocol" d1 (PDict []) = PDict op1) as ->
    by (unfold get_default; now rewrite H1).
  assert (get_default "operational_protocol" d2 (PDict []) = PDict op2) as ->
    by (unfold get_default; now rewrite H2).
  cbn [bind ret Monad_either py_get].
  assert (get_default "vocabulary" op1 (PDict [])
          = get_default "vocabulary" op2 (PDict [])) as ->
    by (unfold get_default; now rewrite Hv).
  assert (get_default "identity" op1 (PDict [])
          = get_default "identity" op2 (PDict [])) as ->
    by (unfold get_default; now rewrite Hi).
  reflexivity.
Qed.

End ValidatorCoverage.

(** * Further properties of the data sources *)

Section SourcesCoverage.

Variable lower : string -> string.
Variable json_loads : string -> py pyval.
Variable key_eq : pyval -> pyval -> bool.
Variable suffix : string -> string.

Hypothesis key_eq_str : forall a b, key_eq (PStr a) (PStr b) = String.eqb a b.

Local Abbreviation listing := (get_local_source_paths json_loads).
Local Abbreviation loading := (load_local_sources lower json_loads key_eq suffix).

Lemma listing_loop w root l : forall es acc,
  listed_entries l = Some es ->
  Forall (fun e => resolves w root (snd (fst e)) = true) es ->
  for_each
    (fun (out : list source) (entry : pyval) =>
       sid <- py_get entry "id" (PStr "") ;;
       rel <- py_get entry "path" (PStr "") ;;
       desc <- py_get entry "description" (PStr "") ;;
       abs_path <- join_resolve w root rel ;;
       ret (out ++ [(sid, abs_path, desc)])%list)
    l acc
  = inr (acc ++ map (located w root) es)%list.
Proof.
  induction l as [|v l IH]; intros es acc H Hres; simpl in H.
  - inversion H. simpl. now rewrite app_nil_r.
  - apply and_then_some in H. destruct H as (e & Ev & H).
    apply and_then_some in H. destruct H as (es' & El & H).
    inversion H; subst es; clear H.
    inversion Hres as [|? ? He Hes']; subst.
    destruct v; try discriminate. simpl in Ev.
    apply and_then_some in Ev. destruct Ev as (path & Epath & Ev).
    inversion Ev; subst e; clear Ev. cbn [fst snd] in He.
    cbn [for_each py_get bind ret Monad_either].
    rewrite (str_field_some _ _ _ Epath).
    cbn [join_resolve]. rewrite (resolves_ok _ _ _ He).
    cbn [bind ret Monad_either].
    rewrite (IH es' _ El Hes'), <- app_assoc. reflexivity.
Qed.

Lemma data_sources_resolved w d ds :
  data_sources_of d = Some ds ->
  get_data_sources json_loads w (PDict d) = inr (PDict ds).
Proof.
  intros H. unfold data_sources_of in H. split_and_then H.
  unfold get_data_sources. cbn [is_None bind ret Monad_either py_get].
  resolve_sections. reflexivity.
Qed.

Lemma listing_closed_form w root d ds es :
  data_sources_of d = Some ds ->
  declared_entries ds = Some es ->
  Forall (fun e => resolves w root (snd (fst e)) = true) es ->
  listing w (Some root) (PDict d) = inr (map (located w root) es).
Proof.
  intros Hds Hes Hres. unfold get_local_source_paths.
  cbn [is_None bind ret Monad_either].
  rewrite (data_sources_resolved w d ds Hds).
  cbn [bind ret Monad_either py_get].
  unfold declared_entries in Hes. unfold get_default.
  destruct (dict_get "local_paths" ds) as [[]|]; try discriminate;
    cbn [py_iter bind ret Monad_either].
  - exact (listing_loop w root _ _ [] Hes Hres).
  - inversion Hes. reflexivity.
Qed.

Lemma located_paths w root (es : list (pyval * string * pyval)) :
  Forall (fun e => resolves w root (snd (fst e)) = true) es ->
  Forall2 (fun p e => resolve w root (snd (fst e)) = inr (snd (fst p)))
    (map (located w root) es) es.
Proof.
  induction 1 as [|e es He Hes IH]; simpl; constructor; [|exact IH].
  exact (resolves_ok _ _ _ He).
Qed.

(** X16.  When every declared path resolves, the listing gives one triple
    per declared entry, in declaration order: the entry's id and description
    as they are (the empty string when absent) and its path as resolved
    against the root, which is the installation directory when no root is
    passed. *)
Theorem listing_keeps_declaration_order w repo_root d ds es :
  data_sources_of d = Some ds ->
  declared_entries ds = Some es ->
  let root := match repo_root with Some r => r | None => here w end in
  Forall (fun e => resolves w root (snd (fst e)) = true) es ->
  exists paths,
    listing w repo_root (PDict d) = inr paths
    /\ List.length paths = List.length es
    /\ map (fun p => fst (fst p)) paths = map (fun e => fst (fst e)) es
    /\ Forall2 (fun p e => resolve w root (snd (fst e)) = inr (snd (fst p)))
         paths es
    /\ map snd paths = map snd es.
Proof.
  intros Hds Hes root Hres.
  exists (map (located w root) es). split.
  - destruct repo_root as [r|];
      exact (listing_closed_form w _ d ds es Hds Hes Hres).
  - rewrite length_map, !map_map.
    split; [reflexivity|]. split; [reflexivity|].
    split; [now apply located_paths | reflexivity].
Qed.

(** X17.  The listing returns nothing, not even the entries before it, when
    an entry is not a mapping ([AttributeError]), when its path is not a
    str ([TypeError]), or when its path cannot be resolved (the error of
    the resolution). *)
Theorem listing_raises_on_bad_entry w repo_root d ds good oks bad rest :
  data_sources_of d = Some ds ->
  dict_get "local_paths" ds = Some (PList (good ++ bad :: rest)) ->
  listed_entries good = Some oks ->
  let root := match repo_root with Some r => r | None => here w end in
  Forall (fun e => resolves w root (snd (fst e)) = true) oks ->
  ((forall e, bad <> PDict e) ->
   listing w repo_root (PDict d)
   = inl (Exn AttributeError
            ("'" ++ type_name bad ++ "' object has no attribute 'get'")))
  /\ (forall e p,
        bad = PDict e -> dict_get "path" e = Some p -> is_str p = false ->
        exists msg, listing w repo_root (PDict d) = inl (Exn TypeError msg))
  /\ (forall e rel err,
        bad = PDict e -> str_field "path" e = Some rel ->
        resolve w root rel = inl err ->
        listing w repo_root (PDict d) = inl err).
Proof.
  intros Hds Hl Hgood root Hres. unfold get_local_source_paths. fold root.
  match goal with |- context [for_each ?b] => set (body := b) end.
  cbn [is_None bind ret Monad_either].
  rewrite (data_sources_resolved w d ds Hds).
  cbn [bind ret Monad_either py_get].
  unfold get_default. rewrite Hl. cbn [py_iter bind ret Monad_either].
  rewrite for_each_app. subst body.
  rewrite (listing_loop w _ good oks [] Hgood Hres).
  cbn [bind ret Monad_either for_each app]. split; [|split].
  - intros Hnot. destruct bad; try reflexivity. now elim (Hnot d0).
  - intros e p -> Hp Hstr. cbn [py_get bind ret Monad_either].
    assert (get_default "path" e (PStr "") = p) as ->
      by (unfold get_default; now rewrite Hp).
    destruct p; try discriminate; eexists; reflexivity.
  - intros e rel err -> Hp Herr. cbn [py_get bind ret Monad_either].
    rewrite (str_field_some _ _ _ Hp). cbn [join_resolve]. rewrite Herr.
    reflexivity.
Qed.

Lemma map_put_fresh k v (out : list local_path) w root :
  ~ In k (map lp_id out) ->
  map_put key_eq (PStr k) v (map (stored lower json_loads suffix w root) out)
  = (map (stored lower json_loads suffix w root) out ++ [(PStr k, v)])%list.
Proof.
  induction out as [|e out IH]; intros Hk; simpl; [reflexivity|].
  rewrite key_eq_str.
  destruct (String.eqb (lp_id e) k) eqn:E.
  - apply String.eqb_eq in E. elim Hk. now left.
  - rewrite IH; [reflexivity|]. intros Hin. apply Hk. now right.
Qed.

Lemma stores_without_duplicates w root es : forall prev,
  NoDup (map lp_id (prev ++ es)) ->
  fold_left (store lower json_loads key_eq suffix w) (map (resolved w root) es)
    (map (stored lower json_loads suffix w root) prev)
  = map (stored lower json_loads suffix w root) (prev ++ es).
Proof.
  induction es as [|e es IH]; intros prev Hnd; simpl.
  - now rewrite app_nil_r.
  - unfold store at 2; simpl.
    rewrite map_put_fresh.
    + change [(PStr (lp_id e),
               content lower json_loads suffix w
                 (resolved_path w root (lp_path e)))]
        with (map (stored lower json_loads suffix w root) [e]).
      rewrite <- map_app, IH; rewrite <- app_assoc; [reflexivity | exact Hnd].
    + rewrite map_app in Hnd. simpl in Hnd.
      apply NoDup_remove_2 in Hnd. intros Hin. apply Hnd.
      apply in_or_app. now left.
Qed.

(** X18.  When the declared ids are all different, every declared path
    resolves and every existence check returns, the loaded mapping has one
    item per declared source, in declaration order, keyed by the id. *)
Theorem loaded_sources_in_declaration_order w repo_root d sources :
  declared_sources d = Some sources ->
  NoDup (map lp_id sources) ->
  let root := match repo_root with Some r => r | None => here w end in
  Forall (fun e => checkable w root (lp_path e) = true) sources ->
  exists out,
    loading w repo_root (PDict d) = inr out
    /\ map fst out = map (fun e => PStr (lp_id e)) sources
    /\ List.length out = List.length sources.
Proof.
  intros H Hnd root Hall.
  destruct (checkable_all w root sources Hall) as [Hres Hstat].
  exists (map (stored lower json_loads suffix w root) sources). split.
  - unfold load_local_sources. cbn [is_None bind ret Monad_either]. fold root.
    rewrite (get_local_source_paths_closed_form json_loads w root d sources H Hres).
    cbn [bind ret Monad_either]. rewrite load_loop by exact Hstat.
    f_equal. exact (stores_without_duplicates w root sources [] Hnd).
  - now rewrite map_map, length_map.
Qed.

(** X19.  When every declared path resolves and every existence check
    returns, a source whose file can be read is loaded as its text, or,
    when the lower-cased suffix of the resolved path is ".json", as the
    parsed value. *)
Theorem readable_source_is_loaded w repo_root d sources :
  declared_sources d = Some sources ->
  let root := match repo_root with Some r => r | None => here w end in
  Forall (fun e => checkable w root (lp_path e) = true) sources ->
  exists out,
    loading w repo_root (PDict d) = inr out
    /\ forall before e after abs_path text,
         sources = (before ++ e :: after)%list ->
         (forall e', In e' after -> lp_id e' <> lp_id e) ->
         resolve w root (lp_path e) = inr abs_path ->
         stat w abs_path = Text text ->
         (lower (suffix abs_path) <> ".json" ->
          map_get key_eq (PStr (lp_id e)) out = Some (PStr text))
         /\ (forall v, lower (suffix abs_path) = ".json" ->
                       json_loads text = inr v ->
                       map_get key_eq (PStr (lp_id e)) out = Some v).
Proof.
  intros H root Hall.
  destruct (load_local_sources_closed_form lower json_loads key_eq suffix
              key_eq_str w repo_root d sources H Hall) as (out & Hout & Hget).
  exists out. split; [exact Hout|].
  intros before e after abs_path text Hsplit Hlast Hpath Hstat.
  specialize (Hget before e after Hsplit Hlast). fold root in Hget.
  destruct (resolved_path_ok _ _ _ _ Hpath) as [_ Hp]. rewrite Hp in Hget.
  unfold content in Hget. rewrite Hstat in Hget. split.
  - intros Hne. apply String.eqb_neq in Hne. now rewrite Hne in Hget.
  - intros v Hjson Hparse. now rewrite Hjson, String.eqb_refl, Hparse in Hget.
Qed.

(** X27.  When every declared path resolves and every existence check
    returns, the load returns, and the id of a source (the last one declared
    with that id) maps to a string that starts with "[missing:" when its
    path does not exist and to a string that describes the error when its
    file cannot be read or holds JSON that does not parse. *)
Theorem checked_source_yields_sentinel w repo_root d sources :
  declared_sources d = Some sources ->
  let root := match repo_root with Some r => r | None => here w end in
  Forall (fun e => checkable w root (lp_path e) = true) sources ->
  exists out,
    loading w repo_root (PDict d) = inr out
    /\ forall before e after abs_path,
         sources = (before ++ e :: after)%list ->
         (forall e', In e' after -> lp_id e' <> lp_id e) ->
         resolve w root (lp_path e) = inr abs_path ->
         (stat w abs_path = Missing ->
          exists note,
            map_get key_eq (PStr (lp_id e)) out = Some (PStr note)
            /\ note = "[missing: " ++ abs_path ++ "]"
            /\ String.prefix "[missing:" note = true)
         /\ (forall err, stat w abs_path = Unreadable err ->
             map_get key_eq (PStr (lp_id e)) out
             = Some (PStr ("[error reading " ++ abs_path ++ ": " ++ exn_str err ++ "]")))
         /\ (forall text err,
              stat w abs_path = Text text ->
              lower (suffix abs_path) = ".json" ->
              json_loads text = inl err ->
              map_get key_eq (PStr (lp_id e)) out
              = Some (PStr ("[error reading " ++ abs_path ++ ": " ++ exn_str err ++ "]"))).
Proof.
  intros H root Hall.
  destruct (load_local_sources_closed_form lower json_loads key_eq suffix
              key_eq_str w repo_root d sources H Hall) as (out & Hout & Hget).
  exists out. split; [exact Hout|].
  intros before e after abs_path Hsplit Hlast Hpath.
  specialize (Hget before e after Hsplit Hlast). fold root in Hget.
  destruct (resolved_path_ok _ _ _ _ Hpath) as [_ Hp]. rewrite Hp in Hget.
  unfold content in Hget. split; [|split].
  - intros Hstat. rewrite Hstat in Hget. eexists.
    split; [exact Hget|]. split; reflexivity.
  - intros err Hstat. now rewrite Hstat in Hget.
  - intros text err Hstat Hjson Hparse.
    now rewrite Hstat, Hjson, Hparse in Hget.
Qed.

Lemma load_body_hashable w out sid abs_path desc :
  hashable sid = true ->
  statable w abs_path = true ->
  exists out',
    load_body lower json_loads key_eq suffix w out (sid, abs_path, desc) = inr out'.
Proof.
  intros Hh. unfold statable, load_body, path_exists, read_text, set_item.
  rewrite Hh.
  destruct (stat w abs_path) as [|e0|e|s]; intros Hs; try discriminate; cbn;
    try (eexists; reflexivity).
  destruct (String.eqb (lower (suffix abs_path)) ".json"); cbn;
    try (eexists; reflexivity).
  destruct (json_loads s); cbn; eexists; reflexivity.
Qed.

Lemma load_body_unhashable w out sid abs_path desc :
  hashable sid = false ->
  statable w abs_path = true ->
  load_body lower json_loads key_eq suffix w out (sid, abs_path, desc)
  = inl (Exn TypeError ("unhashable type: '" ++ type_name sid ++ "'")).
Proof.
  intros Hh. unfold statable, load_body, path_exists, read_text, set_item.
  rewrite Hh.
  destruct (stat w abs_path) as [|e0|e|s]; intros Hs; try discriminate; cbn;
    try reflexivity.
  destruct (String.eqb (lower (suffix abs_path)) ".json"); cbn;
    try reflexivity.
  destruct (json_loads s); reflexivity.
Qed.

Lemma load_hashable_loop w (srcs : list source) : forall out,
  Forall (fun src => hashable (fst (fst src)) = true) srcs ->
  Forall (fun src => statable w (snd (fst src)) = true) srcs ->
  exists out',
    for_each (load_body lower json_loads key_eq suffix w) srcs out = inr out'.
Proof.
  induction srcs as [|[[sid p] desc] srcs IH]; intros out H Hs; cbn [for_each].
  - eexists. reflexivity.
  - inversion H as [|? ? Hsid Hrest]; subst. cbn [fst] in Hsid.
    inversion Hs as [|? ? Hp Hsrest]; subst. cbn [fst snd] in Hp.
    destruct (load_body_hashable w out sid p desc Hsid Hp) as [out' ->].
    cbn [bind ret Monad_either]. now apply IH.
Qed.

Lemma located_checkable w root (es : list (pyval * string * pyval)) :
  Forall (fun e => checkable w root (snd (fst e)) = true) es ->
  Forall (fun e => resolves w root (snd (fst e)) = true) es
  /\ Forall (fun src => statable w (snd (fst src)) = true)
       (map (located w root) es).
Proof.
  induction 1 as [|e es He Hes [IH1 IH2]]; [split; constructor|].
  destruct (checkable_ok _ _ _ He). split; constructor; assumption.
Qed.

(** X20.  When every declared path resolves and every existence check
    returns, the loader returns as long as every id can be a dict key; an
    id that cannot, a list or a mapping, makes it raise [TypeError]
    whatever the file holds, although the listing returns for the same
    document. *)
Theorem unhashable_id_aborts_load w repo_root d ds es :
  data_sources_of d = Some ds ->
  declared_entries ds = Some es ->
  let root := match repo_root with Some r => r | None => here w end in
  Forall (fun e => checkable w root (snd (fst e)) = true) es ->
  (exists paths, listing w repo_root (PDict d) = inr paths)
  /\ (Forall (fun e => hashable (fst (fst e)) = true) es ->
      exists out, loading w repo_root (PDict d) = inr out)
  /\ (forall good id path desc rest,
        es = (good ++ (id, path, desc) :: rest)%list ->
        Forall (fun e => hashable (fst (fst e)) = true) good ->
        hashable id = false ->
        loading w repo_root (PDict d)
        = inl (Exn TypeError ("unhashable type: '" ++ type_name id ++ "'"))).
Proof.
  intros Hds Hes root Hall.
  destruct (located_checkable w root es Hall) as [Hres Hstat].
  assert (loading w repo_root (PDict d)
          = for_each (load_body lower json_loads key_eq suffix w)
              (map (located w root) es) []) as Hload.
  { unfold load_local_sources. cbn [is_None bind ret Monad_either]. fold root.
    now rewrite (listing_closed_form w root d ds es Hds Hes Hres). }
  split; [|split].
  - exists (map (located w root) es).
    destruct repo_root; exact (listing_closed_form w _ d ds es Hds Hes Hres).
  - intros Hhash. rewrite Hload. apply load_hashable_loop; [|exact Hstat].
    rewrite Forall_map. exact Hhash.
  - intros good id path desc rest -> Hgood Hbad. rewrite Hload.
    rewrite map_app in Hstat. apply Forall_app in Hstat.
    destruct Hstat as [Hsgood Hsrest].
    rewrite map_app, for_each_app.
    destruct (load_hashable_loop w (map (located w root) good) [])
      as [out' ->]; [now rewrite Forall_map | exact Hsgood |].
    cbn [bind ret Monad_either map for_each].
    inversion Hsrest as [|? ? Hsbad _]; subst.
    unfold located at 1. cbn [fst snd].
    unfold located in Hsbad. cbn [fst snd] in Hsbad.
    now rewrite (load_body_unhashable _ _ _ _ _ Hbad Hsbad).
Qed.

(** X21.  The retrieval URLs and the local paths that the data-source functions
    hand out are the values the deriver publishes under
    [grounding_constraints.data_sources]. *)
Theorem data_sources_agree_with_derived w query d s :
  sections_of d = Some s ->
  exists r urls,
    logic_route json_loads w query (PDict d) = inr r
    /\ get_retrieval_urls json_loads w (PDict d) = inr urls
    /\ get_path ["grounding_constraints"; "data_sources"; "retrieval_urls"] r
       = Some urls
    /\ get_data_sources json_loads w (PDict d) = inr (PDict (s_data_sources s))
    /\ get_path ["grounding_constraints"; "data_sources"; "local_paths"] r
       = Some (get_default "local_paths" (s_data_sources s) (PList [])).
Proof.
  intros H. rewrite (logic_route_closed_form json_loads w query d s H).
  assert (data_sources_of d = Some (s_data_sources s)) as Hds.
  { unfold sections_of in H. split_and_then H. inversion H; subst s; clear H.
    unfold data_sources_of. rewrite E. cbn [and_then]. rewrite E0.
    cbn [and_then s_data_sources]. exact E1. }
  eexists. exists (get_default "retrieval_urls" (s_data_sources s) (PList [])).
  split; [reflexivity|]. split; [|split; [reflexivity|split; [|reflexivity]]].
  - unfold get_retrieval_urls. cbn [is_None bind ret Monad_either].
    now rewrite (data_sources_resolved w d _ Hds).
  - exact (data_sources_resolved w d _ Hds).
Qed.

(** X22.  Called without a document, every function works on the one it loads:
    its outcome is that of passing the loaded value. *)
Theorem omitted_document_is_the_loaded_one w p text query repo_root :
  load_protocol json_loads w = inr p ->
  is_None p = false ->
  logic_route json_loads w query PNone = logic_route json_loads w query p
  /\ validate_response_against_protocol lower json_loads w text PNone
     = validate_response_against_protocol lower json_loads w text p
  /\ get_operational_protocol json_loads w PNone
     = get_operational_protocol json_loads w p
  /\ get_integrity_protocol json_loads w PNone
     = get_integrity_protocol json_loads w p
  /\ get_output_schema json_loads w PNone = get_output_schema json_loads w p
  /\ get_data_sources json_loads w PNone = get_data_sources json_loads w p
  /\ listing w repo_root PNone = listing w repo_root p
  /\ loading w repo_root PNone = loading w repo_root p
  /\ get_retrieval_urls json_loads w PNone = get_retrieval_urls json_loads w p.
Proof.
  intros H Hp.
  unfold logic_route, validate_response_against_protocol,
    get_operational_protocol, get_integrity_protocol, get_output_schema,
    get_data_sources, get_local_source_paths, load_local_sources,
    get_retrieval_urls.
  cbn [is_None]. rewrite H, Hp. cbn [bind ret Monad_either]. rewrite Hp.
  repeat split; reflexivity.
Qed.

(** X23.  When the protocol file cannot be loaded, every function called without
    a document raises the loader's exception; none of them recovers. *)
Theorem load_failure_reaches_every_caller w e text query repo_root :
  load_protocol json_loads w = inl e ->
  logic_route json_loads w query PNone = inl e
  /\ validate_response_against_protocol lower json_loads w text PNone = inl e
  /\ get_operational_protocol json_loads w PNone = inl e
  /\ get_integrity_protocol json_loads w PNone = inl e
  /\ get_output_schema json_loads w PNone = inl e
  /\ get_data_sources json_loads w PNone = inl e
  /\ listing w repo_root PNone = inl e
  /\ loading w repo_root PNone = inl e
  /\ get_retrieval_urls json_loads w PNone = inl e.
Proof.
  intros H.
  unfold logic_route, validate_response_against_protocol,
    get_operational_protocol, get_integrity_protocol, get_output_schema,
    get_data_sources, get_local_source_paths, load_local_sources,
    get_retrieval_urls.
  cbn [is_None]. rewrite H. repeat split; reflexivity.
Qed.

(** X24.  The object the publishing script writes holds, next to the canonical
    query and the [_meta] block, the very constraints that every query gets
    from the loaded document. *)
Theorem published_constraints_are_every_querys w d s :
  load_protocol json_loads w = inr (PDict d) ->
  sections_of d = Some s ->
  exists file,
    grounding_constraints_file json_loads w = inr (PDict file)
    /\ map fst file
       = ["query"; "grounding_constraints"; "logic_route_note"; "_meta"]
    /\ dict_get "query" file = Some (PStr CANONICAL_QUERY)
    /\ dict_get "_meta" file = Some _meta
    /\ forall w' query,
         exists r,
           logic_route json_loads w' query (PDict d) = inr r
           /\ get_path ["grounding_constraints"] r
              = dict_get "grounding_constraints" file.
Proof.
  intros Hload Hs. unfold grounding_constraints_file. rewrite Hload.
  cbn [bind ret Monad_either].
  rewrite (logic_route_closed_form json_loads w _ d s Hs).
  cbn [bind ret Monad_either py_setitem].
  eexists. split; [reflexivity|]. repeat split.
  intros w' query. rewrite (logic_route_closed_form json_loads w' query d s Hs).
  eexists. split; reflexivity.
Qed.

End SourcesCoverage.

(** * Properties of the metrics script *)

Section MetricsCoverage.

Variable key_eq : pyval -> pyval -> bool.

Hypothesis key_eq_str : forall a b, key_eq (PStr a) (PStr b) = String.eqb a b.

Lemma metrics_body_str p integrity spec metrics f :
  section "integrity_protocol" p = Some integrity ->
  section "operational_spec" integrity = Some spec ->
  metrics_body key_eq (PDict p) metrics (PStr f)
  = inr (map_put key_eq (PStr f) (metric_of integrity spec f) metrics).
Proof.
  intros Hi Hs. unfold metrics_body, metric_of, eq_str, set_item.
  cbn [hashable py_get bind ret Monad_either].
  rewrite (section_some _ _ _ Hi). cbn [py_get bind ret Monad_either].
  rewrite (section_some _ _ _ Hs). cbn [py_get bind ret Monad_either].
  repeat match goal with
         | |- context [String.eqb f ?name] => destruct (String.eqb f name)
         end; reflexivity.
Qed.

Lemma metrics_loop p integrity spec fields : forall metrics,
  section "integrity_protocol" p = Some integrity ->
  section "operational_spec" integrity = Some spec ->
  for_each (metrics_body key_eq (PDict p)) (map PStr fields) metrics
  = inr (fold_left (file_metric key_eq integrity spec) fields metrics).
Proof.
  induction fields as [|f fields IH]; intros metrics Hi Hs;
    cbn [map for_each fold_left]; [reflexivity|].
  rewrite (metrics_body_str p integrity spec metrics f Hi Hs).
  cbn [bind ret Monad_either]. now apply IH.
Qed.

Lemma filed_elsewhere integrity spec f fields : forall metrics,
  ~ In f fields -> str_keys metrics ->
  map_get key_eq (PStr f) (fold_left (file_metric key_eq integrity spec) fields metrics)
  = map_get key_eq (PStr f) metrics.
Proof.
  induction fields as [|a fields IH]; intros metrics Hf Hk; simpl;
    [reflexivity|].
  rewrite IH.
  - unfold file_metric. apply (map_get_put_other key_eq key_eq_str); [|exact Hk].
    intros ->. apply Hf. now left.
  - intros Hin. apply Hf. now right.
  - unfold file_metric. now apply str_keys_put.
Qed.

Lemma filed_here integrity spec f fields : forall metrics,
  In f fields -> str_keys metrics ->
  map_get key_eq (PStr f) (fold_left (file_metric key_eq integrity spec) fields metrics)
  = Some (metric_of integrity spec f).
Proof.
  induction fields as [|a fields IH]; intros metrics Hf Hk; simpl;
    [destruct Hf|].
  assert (str_keys (file_metric key_eq integrity spec metrics a)) as Hk'
    by (unfold file_metric; now apply str_keys_put).
  destruct (in_dec string_dec f fields) as [Hin | Hout].
  - now apply IH.
  - destruct Hf as [-> | Hin]; [|contradiction].
    rewrite filed_elsewhere by assumption.
    unfold file_metric. now apply (map_get_put_same key_eq key_eq_str).
Qed.

(** X25.  The metrics have a key for each declared field and for nothing else.
    [model_version] holds the integrity version ("0.0.0" when there is
    none), [odds] the declared odds (the empty string when there are none),
    the three sample fields their fixed numbers, and every other field
    null; a field declared twice is filed once. *)
Theorem every_declared_field_gets_its_metric p integrity schema spec fields :
  section "integrity_protocol" p = Some integrity ->
  section "disclosure_schema" integrity = Some schema ->
  section "operational_spec" integrity = Some spec ->
  string_list "fields" schema = Some fields ->
  exists metrics,
    generate_metrics key_eq (PDict p) = inr metrics
    /\ (forall f, In f fields ->
          map_get key_eq (PStr f) metrics = Some (metric_of integrity spec f))
    /\ (forall f, ~ In f fields -> map_get key_eq (PStr f) metrics = None)
    /\ (In "model_version" fields ->
        map_get key_eq (PStr "model_version") metrics
        = Some (get_default "version" integrity (PStr "0.0.0")))
    /\ (forall f, In f fields ->
          ~ In f ["model_version"; "odds"; "intervention_rate_last_30_days";
                  "median_time_to_fix"; "open_audit_cases"] ->
          map_get key_eq (PStr f) metrics = Some PNone).
Proof.
  intros Hi Hd Hs Hf.
  exists (fold_left (file_metric key_eq integrity spec) fields []).
  assert (str_keys []) as Hnil by constructor.
  split; [|split; [|split; [|split]]].
  - unfold generate_metrics. cbn [py_get bind ret Monad_either].
    rewrite (section_some _ _ _ Hi). cbn [py_get bind ret Monad_either].
    rewrite (section_some _ _ _ Hd). cbn [py_get bind ret Monad_either].
    rewrite (string_list_some _ _ _ Hf). cbn [py_iter bind ret Monad_either].
    now apply metrics_loop.
  - intros f Hin. now apply filed_here.
  - intros f Hout. now rewrite filed_elsewhere.
  - intros Hin. now rewrite (filed_here integrity spec _ fields [] Hin Hnil).
  - intros f Hin Hother.
    rewrite (filed_here integrity spec _ fields [] Hin Hnil).
    unfold metric_of.
    repeat match goal with
           | |- context [String.eqb f ?name] =>
               let E := fresh "E" in
               destruct (String.eqb f name) eqn:E;
               [ apply String.eqb_eq in E; subst f; elim Hother; simpl; tauto |]
           end.
    reflexivity.
Qed.

End MetricsCoverage.

(** * The deriver and the validator together *)

Section Composition.

Variable lower : string -> string.
Variable json_loads : string -> py pyval.

(** X26.  The word lists the deriver publishes are the lists the validator
    checks: every value reported as a violation is an item of the derived
    [banned_terms] or of the derived [identity.language_avoid]. *)
Theorem violations_come_from_derived_lists w query text d s banned avoid :
  sections_of d = Some s ->
  word_lists_of d = Some (banned, avoid) ->
  exists r report violations,
    logic_route json_loads w query (PDict d) = inr r
    /\ validate_response_against_protocol lower json_loads w text (PDict d)
       = inr report
    /\ get_path ["grounding_constraints"; "banned_terms"] r
       = Some (PList (map PStr banned))
    /\ get_path ["grounding_constraints"; "identity"; "language_avoid"] r
       = Some (PList (map PStr avoid))
    /\ get_path ["violations"] report = Some (PList violations)
    /\ (forall x, In (PDict [("type", PStr "banned_term"); ("value", x)]) violations ->
                  In x (map PStr banned))
    /\ (forall x, In (PDict [("type", PStr "language_avoid"); ("value", x)]) violations ->
                  In x (map PStr avoid)).
Proof.
  intros Hs Hw.
  rewrite (logic_route_closed_form json_loads w query d s Hs).
  rewrite (validate_closed_form lower json_loads w text d _ _ Hw).
  do 2 eexists. exists (found lower text banned avoid).
  split; [reflexivity|]. split; [reflexivity|].
  unfold sections_of in Hs. split_and_then Hs. inversion Hs; subst s; clear Hs.
  unfold word_lists_of in Hw. split_and_then Hw. inversion Hw; subst; clear Hw.
  repeat match goal with
         | A : section ?k ?p = Some ?a, B : section ?k ?p = Some ?b |- _ =>
             assert (a = b) by congruence; subst a; clear A
         end.
  split; [|split; [|split; [reflexivity|split]]].
  - cbn. f_equal. now apply string_list_some.
  - cbn. f_equal. now apply string_list_some.
  - intros v Hv. unfold found in Hv. apply in_app_or in Hv.
    destruct Hv as [Hv | Hv]; apply in_map_iff in Hv;
      destruct Hv as (t & Ht & Hin); inversion Ht; subst v.
    apply in_map. apply filter_In in Hin. apply Hin.
  - intros v Hv. unfold found in Hv. apply in_app_or in Hv.
    destruct Hv as [Hv | Hv]; apply in_map_iff in Hv;
      destruct Hv as (t & Ht & Hin); inversion Ht; subst v.
    apply in_map. apply filter_In in Hin. apply Hin.
Qed.

End Composition.

(** * The further properties on the sample installation *)

Lemma derive_reads_only_operational_protocol_witness :
  logic_route literal_loads empty_world "q"
    (PDict (("output_schema", PInt 1) :: sample_protocol))
  = logic_route literal_loads empty_world "q" (PDict sample_protocol).
Proof.
  apply (derive_reads_only_operational_protocol literal_loads empty_world "q"
           (("output_schema", PInt 1) :: sample_protocol) sample_protocol).
  reflexivity.
Defined.

Lemma no_operational_protocol_gives_all_defaults_witness :
  exists r,
    logic_route literal_loads empty_world "q" (PDict metrics_protocol) = inr r
    /\ get_path ["grounding_constraints"; "identity"; "representation"] r
       = Some (PStr "machine").
Proof.
  eexists. split.
  - apply (no_operational_protocol_gives_all_defaults literal_loads empty_world
             "q" metrics_protocol).
    reflexivity.
  - reflexivity.
Defined.

Lemma projected_fields_verbatim_or_default_witness :
  exists r,
    logic_route literal_loads empty_world "q" (PDict (with_local_paths [])) = inr r
    /\ get_path ["grounding_constraints"; "sourcing_requirement"] r = Some PNone.
Proof.
  destruct (projected_fields_verbatim_or_default literal_loads empty_world "q"
              (with_local_paths []) _ eq_refl) as (r & Hr & Hall).
  exists r. split; [exact Hr|]. exact (Forall_inv Hall).
Defined.

Lemma derived_keys_are_fixed_witness :
  exists r,
    logic_route literal_loads empty_world "q" (PDict sample_protocol) = inr (PDict r)
    /\ map fst r = ["query"; "grounding_constraints"; "logic_route_note"].
Proof.
  destruct (derived_keys_are_fixed literal_loads empty_world "q"
              sample_protocol _ eq_refl) as (r & g & Hr & Hkeys & _).
  exists r. split; assumption.
Defined.

Lemma valid_iff_nothing_contained_witness :
  exists r,
    validate_response_against_protocol ascii_lower literal_loads empty_world
      "Plain facts only" (PDict sample_protocol) = inr r
    /\ get_path ["valid"] r = Some (PBool true).
Proof.
  destruct (valid_iff_nothing_contained ascii_lower literal_loads empty_world
              "Plain facts only" sample_protocol
              ["guarantee"; "Art"] ["as an AI"] eq_refl)
    as (r & valid & Hr & Hvalid & Hiff).
  exists r. split; [exact Hr|]. rewrite Hvalid. do 2 f_equal.
  apply Hiff. intros x Hx. rewrite <- str_in_spec.
  destruct Hx as [<- | [<- | [<- | []]]]; discriminate.
Defined.

Lemma avoided_phrase_reported_iff_contained_witness :
  exists r violations,
    validate_response_against_protocol ascii_lower literal_loads empty_world
      "Speaking AS AN AI, yes" (PDict sample_protocol) = inr r
    /\ get_path ["violations"] r = Some (PList violations)
    /\ In (PDict [("type", PStr "language_avoid"); ("value", PStr "as an AI")])
          violations.
Proof.
  destruct (avoided_phrase_reported_iff_contained ascii_lower literal_loads
              empty_world "Speaking AS AN AI, yes" sample_protocol
              ["guarantee"; "Art"] ["as an AI"] eq_refl)
    as (r & violations & Hr & Hv & Hiff).
  exists r, violations. split; [exact Hr|]. split; [exact Hv|].
  apply Hiff; [now left|]. apply str_in_spec. reflexivity.
Defined.

Lemma response_case_is_ignored_witness :
  validate_response_against_protocol ascii_lower literal_loads empty_world
    "we guarantee results" (PDict sample_protocol)
  = validate_response_against_protocol ascii_lower literal_loads empty_world
      "We GUARANTEE results" (PDict sample_protocol).
Proof.
  apply (response_case_is_ignored ascii_lower literal_loads (fun s _ => eq_refl)
           empty_world "We GUARANTEE results" "" sample_protocol).
  reflexivity.
Defined.

Lemma violations_survive_embedding_witness :
  exists r1 r2 violations1 violations2,
    validate_response_against_protocol ascii_lower literal_loads empty_world
      "a party" (PDict sample_protocol) = inr r1
    /\ validate_response_against_protocol ascii_lower literal_loads empty_world
         "Join a party today" (PDict sample_protocol) = inr r2
    /\ get_path ["violations"] r1 = Some (PList violations1)
    /\ get_path ["violations"] r2 = Some (PList violations2)
    /\ forall x, In x violations1 -> In x violations2.
Proof.
  destruct (violations_survive_embedding ascii_lower literal_loads
              (fun s _ => eq_refl) empty_world "Join " "a party" " today"
              sample_protocol ["guarantee"; "Art"] ["as an AI"]
              eq_refl eq_refl eq_refl eq_refl)
    as (r1 & r2 & v1 & v2 & b1 & b2 & H1 & H2 & Hv1 & Hv2 & _ & _ & Hsub & _).
  exists r1, r2, v1, v2. repeat split; assumption.
Defined.

Lemma records_are_counted_witness :
  exists r violations passed,
    validate_response_against_protocol ascii_lower literal_loads empty_world
      "We GUARANTEE results" (PDict sample_protocol) = inr r
    /\ get_path ["violations"] r = Some (PList violations)
    /\ get_path ["passed_checks"] r = Some (PList passed)
    /\ List.length violations + List.length passed = 2.
Proof.
  destruct (records_are_counted ascii_lower literal_loads empty_world
              "We GUARANTEE results" sample_protocol
              ["guarantee"; "Art"] ["as an AI"] eq_refl)
    as (r & violations & passed & Hr & Hv & Hp & Hcount).
  exists r, violations, passed. repeat split; try assumption.
  rewrite Hcount. clear Hcount.
  vm_compute in Hr. inversion Hr; subst r.
  vm_compute in Hv. inversion Hv; subst violations. reflexivity.
Defined.

Lemma non_string_term_raises_witness :
  validate_response_against_protocol ascii_lower literal_loads empty_world
    "We GUARANTEE results"
    (PDict (with_banned_terms (PList [PStr "guarantee"; PInt 7; PStr "never"])))
  = inl (Exn AttributeError "'int' object has no attribute 'lower'").
Proof.
  eapply (non_string_term_raises ascii_lower literal_loads empty_world
            "We GUARANTEE results" _ _ ["guarantee"] (PInt 7) [PStr "never"]);
    reflexivity.
Defined.

Lemma unloopable_word_list_raises_witness :
  validate_response_against_protocol ascii_lower literal_loads empty_world
    "We GUARANTEE results" (PDict (with_banned_terms PNone))
  = inl (Exn TypeError "'NoneType' object is not iterable").
Proof.
  destruct (unloopable_word_list_raises ascii_lower literal_loads empty_world
              "We GUARANTEE results" (with_banned_terms PNone) _ eq_refl)
    as [Hbanned _].
  exact (Hbanned PNone eq_refl eq_refl).
Defined.

Lemma validate_returns_iff_scannable_witness :
  exists r,
    validate_response_against_protocol ascii_lower literal_loads empty_world
      "We GUARANTEE results" (PDict (with_banned_terms (PStr "no"))) = inr r.
Proof.
  apply (validate_returns_iff_scannable ascii_lower literal_loads empty_world
           "We GUARANTEE results" (with_banned_terms (PStr "no"))).
  discriminate.
Defined.

Lemma string_word_list_scanned_by_character_witness :
  exists r violations,
    validate_response_against_protocol ascii_lower literal_loads empty_world
      "Yes, of course" (PDict (with_banned_terms (PStr "no"))) = inr r
    /\ get_path ["violations"] r = Some (PList violations)
    /\ In (PDict [("type", PStr "banned_term"); ("value", PStr "o")]) violations.
Proof.
  destruct (string_word_list_scanned_by_character ascii_lower literal_loads
              empty_world "Yes, of course" (with_banned_terms (PStr "no"))
              _ "no" [] eq_refl eq_refl eq_refl)
    as (r & violations & Hr & Hv & Hiff).
  exists r, violations. split; [exact Hr|]. split; [exact Hv|].
  apply Hiff; [right; now left|]. apply str_in_spec. reflexivity.
Defined.

Lemma validate_reads_only_vocabulary_and_identity_witness :
  validate_response_against_protocol ascii_lower literal_loads empty_world
    "We GUARANTEE results" (PDict (with_banned_terms (PList [PStr "guarantee"])))
  = validate_response_against_protocol ascii_lower literal_loads empty_world
      "We GUARANTEE results"
      (PDict [ ("operational_protocol", PDict
                  [ ("vocabulary", PDict [("banned_terms", PList [PStr "guarantee"])]) ]) ]).
Proof.
  eapply (validate_reads_only_vocabulary_and_identity ascii_lower literal_loads
            empty_world "We GUARANTEE results"); reflexivity.
Defined.

Lemma listing_keeps_declaration_order_witness :
  exists paths,
    get_local_source_paths literal_loads sample_world None (PDict sample_protocol)
    = inr paths
    /\ map (fun p => fst (fst p)) paths
       = [PStr "notes"; PStr "gone"; PStr "index"; PStr "locked"].
Proof.
  destruct (listing_keeps_declaration_order literal_loads sample_world None
              sample_protocol _ _ eq_refl eq_refl)
    as (paths & Hpaths & _ & Hids & _).
  - repeat constructor.
  - exists paths. split; assumption.
Defined.

Lemma listing_raises_on_bad_entry_witness :
  get_local_source_paths literal_loads sample_world None
    (PDict (with_local_paths [local_entry "notes" "data/notes.txt";
                              PStr "data/raw.txt"]))
  = inl (Exn AttributeError "'str' object has no attribute 'get'")
  /\ get_local_source_paths literal_loads sample_world None
       (PDict nul_path_protocol)
     = inl (Exn ValueError "embedded null byte").
Proof.
  split.
  - destruct (listing_raises_on_bad_entry literal_loads sample_world None
                (with_local_paths [local_entry "notes" "data/notes.txt";
                                   PStr "data/raw.txt"])
                _ [local_entry "notes" "data/notes.txt"] _ (PStr "data/raw.txt")
                [] eq_refl eq_refl eq_refl)
      as (Hnot & _ & _).
    + repeat constructor.
    + apply Hnot. intros e. discriminate.
  - destruct (listing_raises_on_bad_entry literal_loads sample_world None
                nul_path_protocol
                _ [local_entry "notes" "data/notes.txt"] _
                (local_entry "nul" (String zero "x"))
                [] eq_refl eq_refl eq_refl)
      as (_ & _ & Hnul).
    + repeat constructor.
    + eapply Hnul; reflexivity.
Defined.

Lemma loaded_sources_in_declaration_order_witness :
  exists out,
    load_local_sources ascii_lower literal_loads str_key_eq posix_suffix
      sample_world None (PDict sample_protocol) = inr out
    /\ map fst out = [PStr "notes"; PStr "gone"; PStr "index"; PStr "locked"].
Proof.
  destruct (loaded_sources_in_declaration_order ascii_lower literal_loads
              str_key_eq posix_suffix (fun a b => eq_refl) sample_world None
              sample_protocol _ eq_refl)
    as (out & Hout & Hkeys & _).
  - repeat constructor; simpl; intuition discriminate.
  - repeat constructor.
  - exists out. split; assumption.
Defined.

Lemma readable_source_is_loaded_witness :
  exists out,
    load_local_sources ascii_lower literal_loads str_key_eq posix_suffix
      sample_world None (PDict sample_protocol) = inr out
    /\ map_get str_key_eq (PStr "notes") out = Some (PStr "field notes").
Proof.
  destruct (readable_source_is_loaded ascii_lower literal_loads str_key_eq
              posix_suffix (fun a b => eq_refl) sample_world None sample_protocol
              _ eq_refl)
    as (out & Hout & Hget).
  - repeat constructor.
  - exists out. split; [exact Hout|].
    destruct (Hget [] (sample_source "notes" "data/notes.txt")
                [sample_source "gone" "data/gone.md";
                 sample_source "index" "data/index.json";
                 sample_source "locked" "data/locked.txt"]
                "/srv/agent/data/notes.txt" "field notes" eq_refl)
      as [Htext _].
    + intros e' [<- | [<- | [<- | []]]]; discriminate.
    + reflexivity.
    + reflexivity.
    + apply Htext. discriminate.
Defined.

Lemma checked_source_yields_sentinel_witness :
  exists out,
    load_local_sources ascii_lower literal_loads str_key_eq posix_suffix
      sample_world None (PDict sample_protocol) = inr out
    /\ map_get str_key_eq (PStr "gone") out
       = Some (PStr "[missing: /srv/agent/data/gone.md]")
    /\ map_get str_key_eq (PStr "locked") out
       = Some (PStr "[error reading /srv/agent/data/locked.txt: [Errno 13] Permission denied]")
    /\ map_get str_key_eq (PStr "index") out
       = Some (PStr "[error reading /srv/agent/data/index.json: Expecting value: line 1 column 1 (char 0)]").
Proof.
  destruct (checked_source_yields_sentinel ascii_lower literal_loads str_key_eq
              posix_suffix (fun a b => eq_refl) sample_world None sample_protocol
              _ eq_refl)
    as (out & Hout & Hget).
  - repeat constructor.
  - exists out. split; [exact Hout|]. split; [|split].
    + destruct (Hget [sample_source "notes" "data/notes.txt"]
                  (sample_source "gone" "data/gone.md")
                  [sample_source "index" "data/index.json";
                   sample_source "locked" "data/locked.txt"]
                  "/srv/agent/data/gone.md" eq_refl)
        as [Hmissing _].
      * intros e' [<- | [<- | []]]; discriminate.
      * reflexivity.
      * destruct (Hmissing eq_refl) as (note & Hnote & -> & _). exact Hnote.
    + destruct (Hget [sample_source "notes" "data/notes.txt";
                      sample_source "gone" "data/gone.md";
                      sample_source "index" "data/index.json"]
                  (sample_source "locked" "data/locked.txt") []
                  "/srv/agent/data/locked.txt" eq_refl)
        as (_ & Hunreadable & _).
      * intros e' [].
      * reflexivity.
      * exact (Hunreadable _ eq_refl).
    + destruct (Hget [sample_source "notes" "data/notes.txt";
                      sample_source "gone" "data/gone.md"]
                  (sample_source "index" "data/index.json")
                  [sample_source "locked" "data/locked.txt"]
                  "/srv/agent/data/index.json" eq_refl)
        as (_ & _ & Hparse).
      * intros e' [<- | []]; discriminate.
      * reflexivity.
      * exact (Hparse "{" _ eq_refl eq_refl eq_refl).
Defined.

Lemma unhashable_id_aborts_load_witness :
  (exists paths,
     get_local_source_paths literal_loads sample_world None
       (PDict (with_local_paths
                 [local_entry "notes" "data/notes.txt";
                  PDict [("id", PList [PInt 1]); ("path", PStr "data/gone.md")]]))
     = inr paths)
  /\ load_local_sources ascii_lower literal_loads str_key_eq posix_suffix
       sample_world None
       (PDict (with_local_paths
                 [local_entry "notes" "data/notes.txt";
                  PDict [("id", PList [PInt 1]); ("path", PStr "data/gone.md")]]))
     = inl (Exn TypeError "unhashable type: 'list'").
Proof.
  destruct (unhashable_id_aborts_load ascii_lower literal_loads str_key_eq
              posix_suffix sample_world None
              (with_local_paths
                 [local_entry "notes" "data/notes.txt";
                  PDict [("id", PList [PInt 1]); ("path", PStr "data/gone.md")]])
              _ _ eq_refl eq_refl)
    as (Hlist & _ & Hbad).
  - repeat constructor.
  - split; [exact Hlist|].
    apply (Hbad [(PStr "notes", "data/notes.txt", PStr "notes file")]
                (PList [PInt 1]) "data/gone.md" (PStr "") []).
    + reflexivity.
    + repeat constructor.
    + reflexivity.
Defined.

Lemma data_sources_agree_with_derived_witness :
  exists r,
    logic_route literal_loads empty_world "q" (PDict (with_local_paths [])) = inr r
    /\ get_retrieval_urls literal_loads empty_world (PDict (with_local_paths []))
       = inr (PList [PStr "https://example.org/feed"])
    /\ get_path ["grounding_constraints"; "data_sources"; "retrieval_urls"] r
       = Some (PList [PStr "https://example.org/feed"]).
Proof.
  destruct (data_sources_agree_with_derived literal_loads empty_world "q"
              (with_local_paths []) _ eq_refl)
    as (r & urls & Hr & Hurls & Hpath & _).
  exists r. split; [exact Hr|].
  assert (urls = PList [PStr "https://example.org/feed"]) as ->
    by (inversion Hurls; reflexivity).
  split; assumption.
Defined.

Lemma omitted_document_is_the_loaded_one_witness :
  logic_route object_loads bare_world "q" PNone
  = logic_route object_loads bare_world "q" (PDict []).
Proof.
  apply (omitted_document_is_the_loaded_one ascii_lower object_loads str_key_eq
           posix_suffix bare_world (PDict []) "" "q" None);
    reflexivity.
Defined.

Lemma load_failure_reaches_every_caller_witness :
  validate_response_against_protocol ascii_lower literal_loads empty_world
    "We GUARANTEE results" PNone
  = inl (Exn OSError
           "[Errno 2] No such file or directory: '/tmp/protocol/protocol.json'").
Proof.
  apply (load_failure_reaches_every_caller ascii_lower literal_loads str_key_eq
           posix_suffix empty_world _ "We GUARANTEE results" "q" None).
  reflexivity.
Defined.

Lemma published_constraints_are_every_querys_witness :
  exists file,
    grounding_constraints_file object_loads bare_world = inr (PDict file)
    /\ map fst file
       = ["query"; "grounding_constraints"; "logic_route_note"; "_meta"].
Proof.
  destruct (published_constraints_are_every_querys object_loads bare_world
              [] _ eq_refl eq_refl)
    as (file & Hfile & Hkeys & _).
  exists file. split; assumption.
Defined.

Lemma every_declared_field_gets_its_metric_witness :
  exists metrics,
    generate_metrics str_key_eq (PDict metrics_protocol) = inr metrics
    /\ map_get str_key_eq (PStr "model_version") metrics = Some (PStr "1.2.0")
    /\ map_get str_key_eq (PStr "reviewer") metrics = Some PNone
    /\ map_get str_key_eq (PStr "median_time_to_fix") metrics = None.
Proof.
  destruct (every_declared_field_gets_its_metric str_key_eq (fun a b => eq_refl)
              metrics_protocol _ _ _ _ eq_refl eq_refl eq_refl eq_refl)
    as (metrics & Hm & _ & Habsent & Hversion & Hother).
  exists metrics. split; [exact Hm|]. split; [|split].
  - apply Hversion. now left.
  - apply Hother; [do 3 right; now left|].
    simpl. intuition discriminate.
  - apply Habsent. simpl. intuition discriminate.
Defined.

Lemma violations_come_from_derived_lists_witness :
  exists r report,
    logic_route literal_loads empty_world "q" (PDict sample_protocol) = inr r
    /\ validate_response_against_protocol ascii_lower literal_loads empty_world
         "We GUARANTEE results" (PDict sample_protocol) = inr report
    /\ get_path ["grounding_constraints"; "banned_terms"] r
       = Some (PList [PStr "guarantee"; PStr "Art"]).
Proof.
  destruct (violations_come_from_derived_lists ascii_lower literal_loads
              empty_world "q" "We GUARANTEE results" sample_protocol
              _ ["guarantee"; "Art"] ["as an AI"] eq_refl eq_refl)
    as (r & report & violations & Hr & Hreport & Hbanned & _).
  exists r, report. repeat split; assumption.
Defined.
